(** * The TTL cache manager of the Sleeper MCP server

    A shallow embedding of [src/sleeper_mcp_server/cache.py]: the category
    enumeration, the cache entry, the [CacheManager] class with all of its
    methods, and the two module-level accessors.

    Conventions of the embedding.
    - A Python [int] is a [Z]; a Python [float] is the rational [Q] it
      denotes. The division, the product and the [round] of [get_stats]
      round to the nearest double ([Py.to_double]). Clock readings are
      compared as they are; the sum [current_time + ttl] of [set] and the
      ages of [get_cache_info] are kept exact. The conversion of an [int]
      that is too large for a float raises.
    - [time.time()] is an input of every method that reads the clock.
    - A Python [dict] is a [gmap]; iteration order is the one of
      [map_to_list], and the deleting loops do not depend on it
      ([without_keys_Permutation]).
    - A method is a function from the manager before the call to an outcome
      (a returned value or a raised exception) and the manager after the call.
    - Log output and the lock are not part of the state. *)

From Stdlib Require Import ZArith QArith Qabs Qround Qpower Lqa.
From stdpp Require Import gmap strings list fin_maps.

Local Open Scope Z_scope.

(** ** Python values and exceptions *)

(** The payloads stored in the cache ([Any] in the source). *)
#[warnings="-register-all"]
Inductive value : Type :=
  | VNone
  | VBool (b : bool)
  | VInt (z : Z)
  | VStr (s : string)
  | VList (l : list value)
  | VDict (d : list (string * value)).

(** A number that is either an [int] or a [float], as [hit_rate] and the
    entry ages of [get_cache_info] are; a float is finite, given by the
    rational it denotes, or an infinity. *)
Inductive number : Type :=
  | NInt (z : Z)
  | NFloat (q : Q)
  | NInf (negative : bool).

Inductive exn : Type :=
  | KeyError
  | OverflowError
  | ZeroDivisionError
  | ValueError.

Inductive result (A : Type) : Type :=
  | Ok (a : A)
  | Raise (e : exn).
Arguments Ok {A} a.
Arguments Raise {A} e.

Definition result_bind {A B} (r : result A) (k : A -> result B) : result B :=
  match r with
  | Ok a => k a
  | Raise e => Raise e
  end.

Notation "'try*' x ':=' c 'in' k" := (result_bind c (fun x => k))
  (at level 10, x name, c at level 100, k at level 200).

(** ** Built-in operations of Python used by the module *)

Module Py.

(** [x > y] on floats, as a boolean. *)
Definition Qgt_bool (x y : Q) : bool := negb (Qle_bool x y).

(** The largest magnitude an [int] may have to be converted to a float:
    from [2^1024 - 2^970] on, the nearest double is out of range. *)
Definition FLOAT_INT_LIMIT : Z := 2 ^ 1024 - 2 ^ 970.

(** Implicit conversion of an [int] operand of a float operation. *)
Definition float_of_int (z : Z) : result Q :=
  if Z.abs z <? FLOAT_INT_LIMIT then Ok (inject_Z z) else Raise OverflowError.

(** [x + z] for a float [x] and an int [z]. The sum is kept exact: its
    rounding to the nearest double is not modelled. The two agree whenever
    the sum is itself a double, as it is for a [z] of 0. *)
Definition float_add_int (x : Q) (z : Z) : result Q :=
  try* f := float_of_int z in Ok (x + f)%Q.

(** Rounding of a rational to the nearest integer, ties to even. *)
Definition Qround_half_even (q : Q) : Z :=
  let f := Qfloor q in
  let r := (q - inject_Z f)%Q in
  match (r ?= 1 # 2)%Q with
  | Lt => f
  | Gt => f + 1
  | Eq => if Z.even f then f else f + 1
  end.

(** For a positive rational [q], the [k] with [2^k <= q < 2^(k+1)]. *)
Definition floor_log2 (q : Q) : Z :=
  let k := Z.log2 (Qnum q) - Z.log2 (Zpos (Qden q)) in
  if Qle_bool (2 ^ k)%Q q then k else k - 1.

(** The exponent of the last place of the double nearest to [q]: 53
    significant bits, and no less than the exponent of the subnormals. *)
Definition exponent (q : Q) : Z := Z.max (floor_log2 (Qabs q) - 52) (-1074).

(** The double nearest to [q], ties to the even significand, for a [q]
    within the range of the doubles. *)
Definition to_double (q : Q) : Q :=
  if Qeq_bool q 0 then 0%Q
  else
    let e := exponent q in
    (inject_Z (Qround_half_even (q / 2 ^ e)) * 2 ^ e)%Q.

(** The float nearest to [q]: an infinity from the overflow threshold on. *)
Definition finite_or_inf (q : Q) : number :=
  if Qgt_bool (inject_Z FLOAT_INT_LIMIT) (Qabs q) then NFloat (to_double q)
  else NInf (Qgt_bool 0 q).

(** [x * z] for a float [x] and an int [z]. *)
Definition float_mul_int (x : Q) (z : Z) : result number :=
  try* f := float_of_int z in Ok (finite_or_inf (x * f)).

(** [a / b] on ints (true division): the double nearest to the quotient,
    which has to be in range. *)
Definition int_truediv (a b : Z) : result Q :=
  if b =? 0 then Raise ZeroDivisionError
  else
    let q := (inject_Z a / inject_Z b)%Q in
    if Qgt_bool (inject_Z FLOAT_INT_LIMIT) (Qabs q) then Ok (to_double q)
    else Raise OverflowError.

(** [round(x, ndigits)] for [ndigits >= 0]: an int is returned as it is; a
    float is rounded to the decimal with [ndigits] places nearest to it, ties
    to even, and that decimal to the double nearest to it. *)
Definition round (x : number) (ndigits : nat) : number :=
  match x with
  | NInt z => NInt z
  | NFloat q =>
      let scale := inject_Z (10 ^ Z.of_nat ndigits) in
      NFloat (to_double (inject_Z (Qround_half_even (q * scale)) / scale))
  | NInf negative => NInf negative
  end.

(** [pattern in key] on strings. *)
Fixpoint str_contains (pattern key : string) : bool :=
  String.prefix pattern key ||
  match key with
  | EmptyString => false
  | String _ key' => str_contains pattern key'
  end.

Section Dict.
Context {K : Type} `{Countable K} {V : Type}.

(** [d[k]] *)
Definition getitem (d : gmap K V) (k : K) : result V :=
  match d !! k with
  | Some v => Ok v
  | None => Raise KeyError
  end.

(** [del d[k]] *)
Definition delitem (d : gmap K V) (k : K) : result (gmap K V) :=
  match d !! k with
  | Some _ => Ok (delete k d)
  | None => Raise KeyError
  end.

(** [d[k] = v] *)
Definition setitem (d : gmap K V) (k : K) (v : V) : gmap K V := <[k := v]> d.

(** [d.update(other)] *)
Definition update (d other : gmap K V) : gmap K V := other ∪ d.

(** [k in d] *)
Definition contains (d : gmap K V) (k : K) : bool := bool_decide (is_Some (d !! k)).

(** [list(d.keys())], [list(d.values())], [list(d.items())] *)
Definition keys (d : gmap K V) : list K := (map_to_list d).*1.
Definition values (d : gmap K V) : list V := (map_to_list d).*2.
Definition items (d : gmap K V) : list (K * V) := map_to_list d.

(** [len(d)] *)
Definition len (d : gmap K V) : Z := Z.of_nat (size d).

(** [bool(d)] *)
Definition truthy (d : gmap K V) : bool := negb (bool_decide (d = ∅)).
End Dict.

(** [max(l)] and [min(l)] on a list of floats. *)
Definition Qmax (x y : Q) : Q := if Qle_bool x y then y else x.
Definition Qmin (x y : Q) : Q := if Qle_bool x y then x else y.

Definition max (l : list Q) : result Q :=
  match l with
  | [] => Raise ValueError
  | x :: l' => Ok (foldl Qmax x l')
  end.

Definition min (l : list Q) : result Q :=
  match l with
  | [] => Raise ValueError
  | x :: l' => Ok (foldl Qmin x l')
  end.

End Py.

(** ** The data model *)

Inductive CacheDataType : Type :=
  | PLAYER_DATA
  | LEAGUE_SETTINGS
  | MATCHUP_DATA
  | TRENDING_PLAYERS
  | ROSTER_DATA.

(** [data_type.value] *)
Definition CacheDataType_value (t : CacheDataType) : string :=
  match t with
  | PLAYER_DATA => "player_data"
  | LEAGUE_SETTINGS => "league_settings"
  | MATCHUP_DATA => "matchup_data"
  | TRENDING_PLAYERS => "trending_players"
  | ROSTER_DATA => "roster_data"
  end.

#[global] Instance CacheDataType_eq_dec : EqDecision CacheDataType.
Proof. solve_decision. Defined.

Definition CacheDataType_code (t : CacheDataType) : nat :=
  match t with
  | PLAYER_DATA => 0
  | LEAGUE_SETTINGS => 1
  | MATCHUP_DATA => 2
  | TRENDING_PLAYERS => 3
  | ROSTER_DATA => 4
  end%nat.

Definition CacheDataType_of_code (n : nat) : CacheDataType :=
  match n with
  | 0 => PLAYER_DATA
  | 1 => LEAGUE_SETTINGS
  | 2 => MATCHUP_DATA
  | 3 => TRENDING_PLAYERS
  | _ => ROSTER_DATA
  end%nat.

#[global] Instance CacheDataType_countable : Countable CacheDataType.
Proof.
  apply (inj_countable' CacheDataType_code CacheDataType_of_code).
  by intros [].
Defined.

Record CacheEntry : Type := {
  data : value;
  expires_at : Q;
  created_at : Q;
  data_type : CacheDataType
}.

(** [CacheEntry.is_expired], at the clock reading [now]. *)
Definition is_expired (now : Q) (self : CacheEntry) : bool :=
  Py.Qgt_bool now (expires_at self).

(** [CacheEntry.age_seconds], at the clock reading [now]. *)
Definition age_seconds (now : Q) (self : CacheEntry) : Q :=
  (now - created_at self)%Q.

(** [entry.data_type == t] *)
Definition has_data_type (t : CacheDataType) (entry : CacheEntry) : bool :=
  bool_decide (data_type entry = t).

Record Stats : Type := {
  hits : Z;
  misses : Z;
  evictions : Z;
  invalidations : Z
}.

Record CacheManager : Type := {
  _cache : gmap string CacheEntry;
  _ttl_config : gmap CacheDataType Z;
  _stats : Stats
}.

(** ** Methods as state transformers that may raise *)

Definition M (A : Type) : Type := CacheManager -> result A * CacheManager.

Definition ret {A} (a : A) : M A := fun self => (Ok a, self).

Definition raise {A} (e : exn) : M A := fun self => (Raise e, self).

Definition bind {A B} (c : M A) (k : A -> M B) : M B :=
  fun self =>
    match c self with
    | (Ok a, self') => k a self'
    | (Raise e, self') => (Raise e, self')
    end.

Notation "'let*' x ':=' c 'in' k" := (bind c (fun x => k))
  (at level 10, x name, c at level 100, k at level 200).
Notation "c ';;' k" := (bind c (fun _ => k))
  (at level 100, k at level 200, right associativity).

(** A value computed outside of the manager, which may raise. *)
Definition lift {A} (r : result A) : M A := fun self => (r, self).

Definition read_cache : M (gmap string CacheEntry) := fun self => (Ok (_cache self), self).
Definition read_ttl_config : M (gmap CacheDataType Z) := fun self => (Ok (_ttl_config self), self).
Definition read_stats : M Stats := fun self => (Ok (_stats self), self).

Definition write_cache (c : gmap string CacheEntry) : M unit :=
  fun self =>
    (Ok tt, {| _cache := c; _ttl_config := _ttl_config self; _stats := _stats self |}).

Definition write_stats (s : Stats) : M unit :=
  fun self =>
    (Ok tt, {| _cache := _cache self; _ttl_config := _ttl_config self; _stats := s |}).

(** [del self._cache[key]] *)
Definition del_cache (key : string) : M unit :=
  let* c := read_cache in
  let* c' := lift (Py.delitem c key) in
  write_cache c'.

(** [self._stats[...] += n] for each of the four counters. *)
Definition add_hits (n : Z) : M unit :=
  let* s := read_stats in
  write_stats {| hits := hits s + n; misses := misses s;
                 evictions := evictions s; invalidations := invalidations s |}.

Definition add_misses (n : Z) : M unit :=
  let* s := read_stats in
  write_stats {| hits := hits s; misses := misses s + n;
                 evictions := evictions s; invalidations := invalidations s |}.

Definition add_evictions (n : Z) : M unit :=
  let* s := read_stats in
  write_stats {| hits := hits s; misses := misses s;
                 evictions := evictions s + n; invalidations := invalidations s |}.

Definition add_invalidations (n : Z) : M unit :=
  let* s := read_stats in
  write_stats {| hits := hits s; misses := misses s;
                 evictions := evictions s; invalidations := invalidations s + n |}.

(** [for x in l: body(x)] *)
Fixpoint for_each {A} (l : list A) (body : A -> M unit) : M unit :=
  match l with
  | [] => ret tt
  | x :: l' => body x ;; for_each l' body
  end.

(** ** The class [CacheManager] *)

Definition DEFAULT_TTL_CONFIG : gmap CacheDataType Z :=
  <[PLAYER_DATA := 3600]> (
  <[LEAGUE_SETTINGS := 86400]> (
  <[MATCHUP_DATA := 3600]> (
  <[TRENDING_PLAYERS := 1800]> (
  <[ROSTER_DATA := 900]> ∅)))).

Definition __init__ (ttl_config : option (gmap CacheDataType Z)) : CacheManager :=
  let cfg := DEFAULT_TTL_CONFIG in
  let cfg :=
    match ttl_config with
    | Some c => if Py.truthy c then Py.update cfg c else cfg
    | None => cfg
    end in
  {| _cache := ∅;
     _ttl_config := cfg;
     _stats := {| hits := 0; misses := 0; evictions := 0; invalidations := 0 |} |}.

Definition get (now : Q) (key : string) (data_type : CacheDataType) : M value :=
  let* cache := read_cache in
  match cache !! key with
  | None =>
      add_misses 1 ;;
      ret VNone
  | Some entry =>
      if is_expired now entry then
        del_cache key ;;
        add_evictions 1 ;;
        add_misses 1 ;;
        ret VNone
      else
        add_hits 1 ;;
        ret (data entry)
  end.

Definition set (now : Q) (key : string) (data : value) (data_type : CacheDataType)
    (ttl_override : option Z) : M unit :=
  let* ttl :=
    match ttl_override with
    | Some t => ret t
    | None => let* cfg := read_ttl_config in lift (Py.getitem cfg data_type)
    end in
  let current_time := now in
  let* expires_at := lift (Py.float_add_int current_time ttl) in
  let entry := {| data := data; expires_at := expires_at;
                  created_at := current_time; data_type := data_type |} in
  let* cache := read_cache in
  write_cache (Py.setitem cache key entry).

Definition invalidate (key : string) : M bool :=
  let* cache := read_cache in
  if Py.contains cache key then
    del_cache key ;;
    add_invalidations 1 ;;
    ret true
  else ret false.

Definition invalidate_by_pattern (pattern : string) : M Z :=
  let* cache := read_cache in
  let keys_to_remove := filter (fun key => Py.str_contains pattern key = true) (Py.keys cache) in
  for_each keys_to_remove (fun key => del_cache key ;; add_invalidations 1) ;;
  ret (Z.of_nat (length keys_to_remove)).

Definition invalidate_by_type (data_type : CacheDataType) : M Z :=
  let* cache := read_cache in
  let keys_to_remove :=
    (filter (fun kv => has_data_type data_type (kv.2) = true) (Py.items cache)).*1 in
  for_each keys_to_remove (fun key => del_cache key ;; add_invalidations 1) ;;
  ret (Z.of_nat (length keys_to_remove)).

Definition clear : M Z :=
  let* cache := read_cache in
  let count := Py.len cache in
  write_cache ∅ ;;
  add_invalidations count ;;
  ret count.

Definition cleanup_expired (now : Q) : M Z :=
  let current_time := now in
  let* cache := read_cache in
  let keys_to_remove :=
    (filter (fun kv => Qle_bool (expires_at (kv.2)) current_time = true) (Py.items cache)).*1 in
  for_each keys_to_remove (fun key => del_cache key ;; add_evictions 1) ;;
  ret (Z.of_nat (length keys_to_remove)).

(** The dictionary returned by [get_stats]. *)
Module StatsDict.
Record t : Type := {
  hits : Z;
  misses : Z;
  hit_rate_percent : number;
  evictions : Z;
  invalidations : Z;
  total_entries : Z;
  total_requests : Z
}.
End StatsDict.

Definition get_stats : M StatsDict.t :=
  let* stats := read_stats in
  let* cache := read_cache in
  let total_requests := hits stats + misses stats in
  let* hit_rate :=
    if 0 <? total_requests then
      let* ratio := lift (Py.int_truediv (hits stats) total_requests) in
      let* percent := lift (Py.float_mul_int ratio 100) in
      ret percent
    else ret (NInt 0) in
  ret {| StatsDict.hits := hits stats;
         StatsDict.misses := misses stats;
         StatsDict.hit_rate_percent := Py.round hit_rate 2;
         StatsDict.evictions := evictions stats;
         StatsDict.invalidations := invalidations stats;
         StatsDict.total_entries := Py.len cache;
         StatsDict.total_requests := total_requests |}.

(** The dictionary returned by [get_cache_info], and the per-type dictionaries
    it holds. *)
Module TypeInfo.
Record t : Type := { count : Z; expired : Z }.
End TypeInfo.

Module CacheInfo.
Record t : Type := {
  total_entries : Z;
  expired_entries : Z;
  entries_by_type : gmap string TypeInfo.t;
  oldest_entry_age : number;
  newest_entry_age : number
}.
End CacheInfo.

(** One iteration of the loop of [get_cache_info] over [self._cache.values()]:
    [now_entry] is the clock reading of this iteration's [is_expired]. *)
Definition get_cache_info_body (current_time now_entry : Q) (entry : CacheEntry)
    (st : CacheInfo.t * list Q) : result (CacheInfo.t * list Q) :=
  let '(info, ages) := st in
  let age := (current_time - created_at entry)%Q in
  let ages := ages ++ [age] in
  let type_name := CacheDataType_value (data_type entry) in
  let by_type := CacheInfo.entries_by_type info in
  let by_type :=
    if negb (Py.contains by_type type_name)
    then Py.setitem by_type type_name {| TypeInfo.count := 0; TypeInfo.expired := 0 |}
    else by_type in
  try* ti := Py.getitem by_type type_name in
  let by_type :=
    Py.setitem by_type type_name
      {| TypeInfo.count := TypeInfo.count ti + 1; TypeInfo.expired := TypeInfo.expired ti |} in
  if is_expired now_entry entry then
    try* ti := Py.getitem by_type type_name in
    let by_type :=
      Py.setitem by_type type_name
        {| TypeInfo.count := TypeInfo.count ti; TypeInfo.expired := TypeInfo.expired ti + 1 |} in
    Ok ({| CacheInfo.total_entries := CacheInfo.total_entries info;
           CacheInfo.expired_entries := CacheInfo.expired_entries info + 1;
           CacheInfo.entries_by_type := by_type;
           CacheInfo.oldest_entry_age := CacheInfo.oldest_entry_age info;
           CacheInfo.newest_entry_age := CacheInfo.newest_entry_age info |}, ages)
  else
    Ok ({| CacheInfo.total_entries := CacheInfo.total_entries info;
           CacheInfo.expired_entries := CacheInfo.expired_entries info;
           CacheInfo.entries_by_type := by_type;
           CacheInfo.oldest_entry_age := CacheInfo.oldest_entry_age info;
           CacheInfo.newest_entry_age := CacheInfo.newest_entry_age info |}, ages).

Fixpoint get_cache_info_loop (current_time : Q) (clock : nat -> Q) (i : nat)
    (entries : list CacheEntry) (st : CacheInfo.t * list Q) : result (CacheInfo.t * list Q) :=
  match entries with
  | [] => Ok st
  | entry :: entries' =>
      try* st' := get_cache_info_body current_time (clock i) entry st in
      get_cache_info_loop current_time clock (S i) entries' st'
  end.

(** [get_cache_info]: [now] is the reading taken on entry, [clock i] the one
    taken by [is_expired] in the [i]-th iteration of the loop. *)
Definition get_cache_info (now : Q) (clock : nat -> Q) : M CacheInfo.t :=
  let current_time := now in
  let info := {| CacheInfo.total_entries := 0;
                 CacheInfo.expired_entries := 0;
                 CacheInfo.entries_by_type := ∅;
                 CacheInfo.oldest_entry_age := NInt 0;
                 CacheInfo.newest_entry_age := NInt 0 |} in
  let* cache := read_cache in
  if negb (Py.truthy cache) then ret info
  else
    let* st := lift (get_cache_info_loop current_time clock 0 (Py.values cache) (info, [])) in
    let '(info, ages) := st in
    let total := Py.len cache in
    match ages with
    | [] =>
        ret {| CacheInfo.total_entries := total;
               CacheInfo.expired_entries := CacheInfo.expired_entries info;
               CacheInfo.entries_by_type := CacheInfo.entries_by_type info;
               CacheInfo.oldest_entry_age := CacheInfo.oldest_entry_age info;
               CacheInfo.newest_entry_age := CacheInfo.newest_entry_age info |}
    | _ :: _ =>
        let* oldest := lift (Py.max ages) in
        let* newest := lift (Py.min ages) in
        ret {| CacheInfo.total_entries := total;
               CacheInfo.expired_entries := CacheInfo.expired_entries info;
               CacheInfo.entries_by_type := CacheInfo.entries_by_type info;
               CacheInfo.oldest_entry_age := NFloat oldest;
               CacheInfo.newest_entry_age := NFloat newest |}
    end.

Definition get_matchup_ttl (is_game_time : bool) : M Z :=
  ret (if is_game_time then 300 else 3600).

Definition log_performance_summary (now : Q) (clock : nat -> Q) : M unit :=
  let* stats := get_stats in
  let* info := get_cache_info now clock in
  ret tt.

(** ** Histories of calls *)

(** A method call with its arguments and the clock readings it consumes. *)
Inductive call : Type :=
  | CallGet (now : Q) (key : string) (data_type : CacheDataType)
  | CallSet (now : Q) (key : string) (data : value) (data_type : CacheDataType)
      (ttl_override : option Z)
  | CallInvalidate (key : string)
  | CallInvalidateByPattern (pattern : string)
  | CallInvalidateByType (data_type : CacheDataType)
  | CallClear
  | CallCleanupExpired (now : Q)
  | CallGetStats
  | CallGetCacheInfo (now : Q) (clock : nat -> Q)
  | CallGetMatchupTtl (is_game_time : bool)
  | CallLogPerformanceSummary (now : Q) (clock : nat -> Q).

(** The manager after a call, whether it returned or raised. *)
Definition after (c : call) (self : CacheManager) : CacheManager :=
  match c with
  | CallGet now key data_type => snd (get now key data_type self)
  | CallSet now key data data_type ttl_override =>
      snd (set now key data data_type ttl_override self)
  | CallInvalidate key => snd (invalidate key self)
  | CallInvalidateByPattern pattern => snd (invalidate_by_pattern pattern self)
  | CallInvalidateByType data_type => snd (invalidate_by_type data_type self)
  | CallClear => snd (clear self)
  | CallCleanupExpired now => snd (cleanup_expired now self)
  | CallGetStats => snd (get_stats self)
  | CallGetCacheInfo now clock => snd (get_cache_info now clock self)
  | CallGetMatchupTtl is_game_time => snd (get_matchup_ttl is_game_time self)
  | CallLogPerformanceSummary now clock => snd (log_performance_summary now clock self)
  end.

(** The manager after a history of calls, the earliest first. *)
Definition after_all (cs : list call) (self : CacheManager) : CacheManager :=
  foldl (fun s c => after c s) self cs.

(** The managers a program can hold: constructed by [__init__] and then used
    through the methods only. *)
Definition reachable_from (ttl_config : option (gmap CacheDataType Z))
    (self : CacheManager) : Prop :=
  exists cs, self = after_all cs (__init__ ttl_config).

Definition reachable (self : CacheManager) : Prop :=
  exists ttl_config, reachable_from ttl_config self.

(** A call that stores an entry under [key]. *)
Definition sets_key (key : string) (c : call) : bool :=
  match c with
  | CallSet _ key' _ _ _ => bool_decide (key' = key)
  | _ => false
  end.

(** ** Vocabulary of the specification *)

(** The default time-to-live of each category, in seconds. *)
Definition default_ttl (t : CacheDataType) : Z :=
  match t with
  | PLAYER_DATA => 3600
  | LEAGUE_SETTINGS => 86400
  | MATCHUP_DATA => 3600
  | TRENDING_PLAYERS => 1800
  | ROSTER_DATA => 900
  end.

(** [pattern] occurs in [key] as a literal substring. *)
Definition is_substring (pattern key : string) : Prop :=
  exists before after, key = (before +:+ pattern +:+ after)%string.

(** An [int] that a float operation accepts as an operand. *)
Definition fits_float (z : Z) : Prop := Z.abs z < Py.FLOAT_INT_LIMIT.

(** The manager [self] with its counters replaced. *)
Definition with_stats (self : CacheManager) (s : Stats) : CacheManager :=
  {| _cache := _cache self; _ttl_config := _ttl_config self; _stats := s |}.

(** The manager [self] with its store replaced. *)
Definition with_cache (self : CacheManager) (c : gmap string CacheEntry) : CacheManager :=
  {| _cache := c; _ttl_config := _ttl_config self; _stats := _stats self |}.

(** The counters after one more hit, one more miss, [n] more evictions and
    [n] more invalidations. *)
Definition count_hit (s : Stats) : Stats :=
  {| hits := hits s + 1; misses := misses s;
     evictions := evictions s; invalidations := invalidations s |}.

Definition count_miss (s : Stats) : Stats :=
  {| hits := hits s; misses := misses s + 1;
     evictions := evictions s; invalidations := invalidations s |}.

Definition count_evictions (n : Z) (s : Stats) : Stats :=
  {| hits := hits s; misses := misses s;
     evictions := evictions s + n; invalidations := invalidations s |}.

Definition count_invalidations (n : Z) (s : Stats) : Stats :=
  {| hits := hits s; misses := misses s;
     evictions := evictions s; invalidations := invalidations s + n |}.

(** What a call [c] that takes the manager from [self] to [self'] keeps: the
    time-to-live table, the counters or more, and the absence of every key
    that [c] does not store. *)
Record keeps (c : call) (self self' : CacheManager) : Prop := {
  keeps_ttl_config : _ttl_config self' = _ttl_config self;
  keeps_hits : hits (_stats self) <= hits (_stats self');
  keeps_misses : misses (_stats self) <= misses (_stats self');
  keeps_evictions : evictions (_stats self) <= evictions (_stats self');
  keeps_invalidations : invalidations (_stats self) <= invalidations (_stats self');
  keeps_absent :
    forall k, sets_key k c = false -> _cache self !! k = None -> _cache self' !! k = None
}.

Definition counters_nonneg (s : Stats) : Prop :=
  0 <= hits s /\ 0 <= misses s /\ 0 <= evictions s /\ 0 <= invalidations s.

(** The store [c] without the keys of [ks]. *)
Definition without_keys (ks : list string) (c : gmap string CacheEntry) :
    gmap string CacheEntry :=
  foldl (fun c k => delete k c) c ks.

(** ** The module-level manager *)

(** A manager is an object and a program holds references to it. The state of
    the module is the managers constructed so far, a reference being an index
    into them, and the global [_cache_manager]. *)
Record Globals : Type := {
  objects : list CacheManager;
  _cache_manager : option nat
}.

(** The module as it is loaded. *)
Definition module_loaded : Globals := {| objects := []; _cache_manager := None |}.

Definition get_cache_manager (g : Globals) : nat * Globals :=
  match _cache_manager g with
  | None =>
      let ref := length (objects g) in
      (ref, {| objects := objects g ++ [__init__ None]; _cache_manager := Some ref |})
  | Some ref => (ref, g)
  end.

Definition initialize_cache (ttl_config : option (gmap CacheDataType Z)) (g : Globals) :
    nat * Globals :=
  let ref := length (objects g) in
  (ref, {| objects := objects g ++ [__init__ ttl_config]; _cache_manager := Some ref |}).

(** A method called through a reference: it acts on the object referred to. *)
Definition call_on {A} (ref : nat) (method : M A) (g : Globals) :
    option (result A * Globals) :=
  match objects g !! ref with
  | Some self =>
      let '(r, self') := method self in
      Some (r, {| objects := <[ref := self']> (objects g);
                  _cache_manager := _cache_manager g |})
  | None => None
  end.

(** The global refers to a constructed manager, if to any. *)
Definition globals_wf (g : Globals) : Prop :=
  forall ref, _cache_manager g = Some ref -> (ref < length (objects g))%nat.

(** ** Vocabulary of the histories and of the cache report *)

Definition is_get (c : call) : bool :=
  match c with
  | CallGet _ _ _ => true
  | _ => false
  end.

Definition is_set (c : call) : bool :=
  match c with
  | CallSet _ _ _ _ _ => true
  | _ => false
  end.

(** The number of calls of a history that satisfy [p]. *)
Definition count_calls (p : call -> bool) (cs : list call) : Z :=
  Z.of_nat (length (filter (fun c => p c = true) cs)).

(** An entry as [set] builds it. *)
Definition entry_of (now : Q) (payload : value) (t : CacheDataType) (ttl : Z) : CacheEntry :=
  {| data := payload; expires_at := (now + inject_Z ttl)%Q;
     created_at := now; data_type := t |}.

(** The per-type dictionary of [get_cache_info] at [name], zeros when absent. *)
Definition tally (by_type : gmap string TypeInfo.t) (name : string) : TypeInfo.t :=
  default {| TypeInfo.count := 0; TypeInfo.expired := 0 |} (by_type !! name).

(** The entries of type name [name]. *)
Definition named (name : string) (entry : CacheEntry) : bool :=
  bool_decide (CacheDataType_value (data_type entry) = name).

(** Among [entries], scanned from iteration [i] on, the number of those that
    satisfy [p] and are expired at the clock reading of their iteration. *)
Fixpoint expired_among (p : CacheEntry -> bool) (clock : nat -> Q) (i : nat)
    (entries : list CacheEntry) : Z :=
  match entries with
  | [] => 0
  | entry :: entries' =>
      (if p entry && is_expired (clock i) entry then 1 else 0)
      + expired_among p clock (S i) entries'
  end.

(** The number of [entries] that satisfy [p]. *)
Definition count_entries (p : CacheEntry -> bool) (entries : list CacheEntry) : Z :=
  Z.of_nat (length (filter (fun entry => p entry = true) entries)).

(** * Properties *)

Ltac keeps_by_computation := split; cbn; try lia; try done.

(** ** Built-in operations *)

Lemma Qgt_bool_true (x y : Q) : Py.Qgt_bool x y = true <-> (y < x)%Q.
Proof.
  unfold Py.Qgt_bool. rewrite negb_true_iff, <- not_true_iff_false, Qle_bool_iff.
  split; [apply Qnot_le_lt | apply Qlt_not_le].
Qed.

Lemma Qgt_bool_false (x y : Q) : Py.Qgt_bool x y = false <-> (x <= y)%Q.
Proof. unfold Py.Qgt_bool. by rewrite negb_false_iff, Qle_bool_iff. Qed.

Lemma float_of_int_fits (z : Z) : fits_float z -> Py.float_of_int z = Ok (inject_Z z).
Proof.
  unfold fits_float, Py.float_of_int. intros Hz.
  by destruct (Z.ltb_spec (Z.abs z) Py.FLOAT_INT_LIMIT); [| lia].
Qed.

Lemma float_of_int_overflow (z : Z) :
  ~ fits_float z -> Py.float_of_int z = Raise OverflowError.
Proof.
  unfold fits_float, Py.float_of_int. intros Hz.
  by destruct (Z.ltb_spec (Z.abs z) Py.FLOAT_INT_LIMIT).
Qed.

Lemma fits_float_small (z : Z) : Z.abs z < 2 ^ 64 -> fits_float z.
Proof.
  unfold fits_float, Py.FLOAT_INT_LIMIT. intros Hz.
  eapply Z.lt_trans; [exact Hz |]. by vm_compute.
Qed.

(** ** Rounding *)

Lemma Qround_half_even_near (q : Q) :
  (q - (1 # 2) <= inject_Z (Py.Qround_half_even q) <= q + (1 # 2))%Q.
Proof.
  unfold Py.Qround_half_even.
  pose proof (Qfloor_le q) as Hlo. pose proof (Qlt_floor q) as Hhi.
  rewrite inject_Z_plus in Hhi. change (inject_Z 1) with 1%Q in Hhi.
  destruct (q - inject_Z (Qfloor q) ?= 1 # 2)%Q eqn:Hcmp.
  - apply Qeq_alt in Hcmp.
    destruct (Z.even (Qfloor q)).
    + lra.
    + rewrite inject_Z_plus. change (inject_Z 1) with 1%Q. lra.
  - apply Qlt_alt in Hcmp. lra.
  - apply Qgt_alt in Hcmp. rewrite inject_Z_plus. change (inject_Z 1) with 1%Q. lra.
Qed.

Lemma Qround_half_even_between (q : Q) (lo hi : Z) :
  (inject_Z lo <= q <= inject_Z hi)%Q ->
  lo <= Py.Qround_half_even q <= hi.
Proof.
  intros [Hlo Hhi].
  pose proof (Qfloor_resp_le _ _ Hlo) as Hflo. rewrite Qfloor_Z in Hflo.
  pose proof (Qfloor_resp_le _ _ Hhi) as Hfhi. rewrite Qfloor_Z in Hfhi.
  pose proof (Qfloor_le q) as Hfq.
  unfold Py.Qround_half_even.
  destruct (q - inject_Z (Qfloor q) ?= 1 # 2)%Q eqn:Hcmp.
  - apply Qeq_alt in Hcmp.
    assert (Qfloor q < hi) by (rewrite Zlt_Qlt; lra).
    destruct (Z.even _); lia.
  - lia.
  - apply Qgt_alt in Hcmp.
    assert (Qfloor q < hi) by (rewrite Zlt_Qlt; lra).
    lia.
Qed.

Lemma Qround_half_even_whole (q : Q) (z : Z) :
  (q == inject_Z z)%Q -> Py.Qround_half_even q = z.
Proof.
  intros Hq. apply Z.le_antisymm.
  - apply (Qround_half_even_between q z z). lra.
  - apply (Qround_half_even_between q z z). lra.
Qed.

Lemma pow2_pos (k : Z) : (0 < 2 ^ k)%Q.
Proof. apply Qpower_0_lt. reflexivity. Qed.

Lemma pow2_add (a b : Z) : (2 ^ (a + b) == 2 ^ a * 2 ^ b)%Q.
Proof. apply Qpower_plus. discriminate. Qed.

Lemma pow2_le (a b : Z) : a <= b -> (2 ^ a <= 2 ^ b)%Q.
Proof. intros Hab. apply Qpower_le_compat_l; [exact Hab | discriminate]. Qed.

Lemma pow2_le_inv (a b : Z) : (2 ^ a <= 2 ^ b)%Q -> a <= b.
Proof. intros Hab. apply (Qpower_le_compat_l_inv 2); [exact Hab | reflexivity]. Qed.

Lemma pow2_inject (k : Z) : 0 <= k -> (2 ^ k == inject_Z (2 ^ k))%Q.
Proof. intros Hk. symmetry. apply (Zpower_Qpower 2 k Hk). Qed.

Lemma floor_log2_lower (q : Q) : (0 < q)%Q -> (2 ^ Py.floor_log2 q <= q)%Q.
Proof.
  intros Hq. unfold Py.floor_log2.
  destruct q as [n d]. cbn [Qnum Qden].
  assert (0 < n) as Hn by (unfold Qlt in Hq; cbn in Hq; lia).
  set (a := Z.log2 n). set (b := Z.log2 (Zpos d)).
  destruct (Qle_bool (2 ^ (a - b)) (n # d)) eqn:Htest.
  - by apply Qle_bool_iff in Htest.
  - pose proof (Z.log2_spec n Hn) as [Hna _]. fold a in Hna.
    pose proof (Z.log2_spec (Zpos d) eq_refl) as [_ Hdb]. fold b in Hdb.
    assert (0 <= a) as Ha by apply Z.log2_nonneg.
    assert (0 <= b) as Hb by apply Z.log2_nonneg.
    rewrite (Qmake_Qdiv n d).
    apply Qle_shift_div_l; [reflexivity |].
    assert (2 ^ (a - b - 1) * 2 ^ (b + 1) == 2 ^ a)%Q as Hsplit.
    { rewrite <- pow2_add. replace (a - b - 1 + (b + 1)) with a by lia. reflexivity. }
    rewrite Zle_Qle in Hna. rewrite Zlt_Qlt in Hdb.
    rewrite <- (pow2_inject a Ha) in Hna.
    pose proof (pow2_pos (a - b - 1)) as Hp.
    assert (inject_Z (Zpos d) <= 2 ^ (b + 1))%Q as Hd.
    { rewrite (pow2_inject (b + 1)) by lia. apply Qlt_le_weak.
      replace (b + 1) with (Z.succ b) by lia. exact Hdb. }
    apply Qle_trans with (2 ^ (a - b - 1) * 2 ^ (b + 1))%Q.
    + apply Qmult_le_l; [exact Hp | exact Hd].
    + rewrite Hsplit. exact Hna.
Qed.

Lemma Qabs_pos_eq (q : Q) : (0 < q)%Q -> Qabs q = q.
Proof.
  destruct q as [n d]. unfold Qlt. cbn. intros Hn.
  rewrite Z.abs_eq by lia. reflexivity.
Qed.

Lemma exponent_le (q : Q) (K : Z) :
  (0 < q)%Q -> (q <= 2 ^ K)%Q -> Py.exponent q <= Z.max (K - 52) (-1074).
Proof.
  intros Hq HK. unfold Py.exponent. rewrite (Qabs_pos_eq q Hq).
  pose proof (floor_log2_lower q Hq) as Hlow.
  assert (Py.floor_log2 q <= K) by (apply pow2_le_inv; lra).
  lia.
Qed.

Lemma to_double_zero (q : Q) : (q == 0)%Q -> Py.to_double q = 0%Q.
Proof. intros Hq. unfold Py.to_double. by rewrite (proj2 (Qeq_bool_iff q 0) Hq). Qed.

Lemma to_double_pos (q : Q) :
  (0 < q)%Q ->
  Py.to_double q =
    (inject_Z (Py.Qround_half_even (q / 2 ^ Py.exponent q)) * 2 ^ Py.exponent q)%Q.
Proof.
  intros Hq. unfold Py.to_double.
  destruct (Qeq_bool q 0) eqn:Hz; [| done].
  apply Qeq_bool_iff in Hz. lra.
Qed.

(** A positive rational between two multiples of a power of two that is no
    finer than its own last place rounds to a double between them. *)
Lemma to_double_between (q : Q) (lo hi E : Z) :
  (0 < q)%Q ->
  Py.exponent q <= E ->
  (inject_Z lo * 2 ^ E <= q <= inject_Z hi * 2 ^ E)%Q ->
  (inject_Z lo * 2 ^ E <= Py.to_double q <= inject_Z hi * 2 ^ E)%Q.
Proof.
  intros Hq HE [Hlo Hhi]. rewrite (to_double_pos q Hq).
  set (e := Py.exponent q) in *.
  pose proof (pow2_pos e) as Hpe.
  assert (2 ^ E == inject_Z (2 ^ (E - e)) * 2 ^ e)%Q as HEe.
  { rewrite <- pow2_inject by lia. rewrite <- pow2_add.
    replace (E - e + e) with E by lia. reflexivity. }
  assert (q == q / 2 ^ e * 2 ^ e)%Q as Hqe by (field; lra).
  set (x := (q / 2 ^ e)%Q) in *.
  assert (inject_Z (lo * 2 ^ (E - e)) <= x <= inject_Z (hi * 2 ^ (E - e)))%Q as Hx.
  { rewrite !inject_Z_mult. rewrite HEe, Hqe in Hlo, Hhi.
    rewrite !Qmult_assoc in Hlo, Hhi.
    apply Qmult_le_r in Hlo, Hhi; [| exact Hpe | exact Hpe]. split; assumption. }
  apply Qround_half_even_between in Hx as [Hm1 Hm2].
  rewrite Zle_Qle in Hm1, Hm2. rewrite !inject_Z_mult in Hm1, Hm2.
  rewrite HEe, !Qmult_assoc. split; apply Qmult_le_compat_r; try assumption; lra.
Qed.

(** The rounding error is at most half a unit in the last place. *)
Lemma to_double_error (q : Q) (E : Z) :
  (0 < q)%Q ->
  Py.exponent q <= E ->
  (q - 2 ^ E * (1 # 2) <= Py.to_double q <= q + 2 ^ E * (1 # 2))%Q.
Proof.
  intros Hq HE. rewrite (to_double_pos q Hq).
  set (e := Py.exponent q) in *.
  pose proof (pow2_pos e) as Hpe. pose proof (pow2_le e E HE) as HeE.
  assert (q == q / 2 ^ e * 2 ^ e)%Q as Hqe by (field; lra).
  pose proof (Qround_half_even_near (q / 2 ^ e)) as [Hn1 Hn2].
  set (x := (q / 2 ^ e)%Q) in *. set (m := inject_Z (Py.Qround_half_even x)) in *.
  assert ((x - (1 # 2)) * 2 ^ e <= m * 2 ^ e)%Q as H1
    by (apply Qmult_le_compat_r; lra).
  assert (m * 2 ^ e <= (x + (1 # 2)) * 2 ^ e)%Q as H2
    by (apply Qmult_le_compat_r; lra).
  set (P := (2 ^ e)%Q) in *. set (PE := (2 ^ E)%Q) in *.
  assert ((x - (1 # 2)) * P == q - P * (1 # 2))%Q as Ha by (rewrite Hqe; ring).
  assert ((x + (1 # 2)) * P == q + P * (1 # 2))%Q as Hb by (rewrite Hqe; ring).
  rewrite Ha in H1. rewrite Hb in H2. split; lra.
Qed.

(** Doubles between 0 and 1: rounding stays there, within [2^-53]. *)
Lemma to_double_unit (q : Q) :
  (0 <= q <= 1)%Q ->
  (0 <= Py.to_double q <= 1)%Q /\
  (q - (1 # 9007199254740992) <= Py.to_double q <= q + (1 # 9007199254740992))%Q.
Proof.
  intros [Hq0 Hq1]. destruct (Qlt_le_dec 0 q) as [Hpos|Hzero].
  - assert (Py.exponent q <= -52) as He.
    { pose proof (exponent_le q 0 Hpos) as Hle. change (2 ^ 0)%Q with 1%Q in Hle.
      specialize (Hle Hq1). lia. }
    split.
    + pose proof (to_double_between q 0 1 0 Hpos) as Hb.
      change (2 ^ 0)%Q with 1%Q in Hb. change (inject_Z 0) with 0%Q in Hb.
      change (inject_Z 1) with 1%Q in Hb.
      assert (0 * 1 <= q <= 1 * 1)%Q as Hq by lra.
      specialize (Hb ltac:(lia) Hq). lra.
    + pose proof (to_double_error q (-52) Hpos He) as Herr.
      change (2 ^ (-52))%Q with (1 # 4503599627370496)%Q in Herr. lra.
  - rewrite to_double_zero by lra. split; lra.
Qed.

(** Doubles between 0 and 100: rounding stays there, within [2^-46]. *)
Lemma to_double_percent (q : Q) :
  (0 <= q <= 100)%Q ->
  (0 <= Py.to_double q <= 100)%Q /\
  (q - (1 # 70368744177664) <= Py.to_double q <= q + (1 # 70368744177664))%Q.
Proof.
  intros [Hq0 Hq1]. destruct (Qlt_le_dec 0 q) as [Hpos|Hzero].
  - assert (Py.exponent q <= -45) as He.
    { pose proof (exponent_le q 7 Hpos) as Hle. change (2 ^ 7)%Q with 128%Q in Hle.
      specialize (Hle ltac:(lra)). lia. }
    split.
    + pose proof (to_double_between q 0 25 2 Hpos) as Hb.
      change (2 ^ 2)%Q with 4%Q in Hb. change (inject_Z 0) with 0%Q in Hb.
      change (inject_Z 25) with 25%Q in Hb.
      assert (0 * 4 <= q <= 25 * 4)%Q as Hq by lra.
      specialize (Hb ltac:(lia) Hq). lra.
    + pose proof (to_double_error q (-45) Hpos He) as Herr.
      change (2 ^ (-45))%Q with (1 # 35184372088832)%Q in Herr. lra.
  - rewrite to_double_zero by lra. split; lra.
Qed.

(** 1 and 100 are doubles. *)
Lemma to_double_one (q : Q) : (q == 1)%Q -> (Py.to_double q == 1)%Q.
Proof.
  intros Hq. assert (0 < q)%Q as Hpos by lra.
  pose proof (exponent_le q 0 Hpos) as Hle. change (2 ^ 0)%Q with 1%Q in Hle.
  specialize (Hle ltac:(lra)).
  pose proof (to_double_between q 1 1 0 Hpos) as Hb.
  change (2 ^ 0)%Q with 1%Q in Hb. change (inject_Z 1) with 1%Q in Hb.
  assert (1 * 1 <= q <= 1 * 1)%Q as Hq' by lra.
  specialize (Hb ltac:(lia) Hq'). lra.
Qed.

Lemma to_double_hundred (q : Q) : (q == 100)%Q -> (Py.to_double q == 100)%Q.
Proof.
  intros Hq. assert (0 < q)%Q as Hpos by lra.
  pose proof (exponent_le q 7 Hpos) as Hle. change (2 ^ 7)%Q with 128%Q in Hle.
  specialize (Hle ltac:(lra)).
  pose proof (to_double_between q 25 25 2 Hpos) as Hb.
  change (2 ^ 2)%Q with 4%Q in Hb. change (inject_Z 25) with 25%Q in Hb.
  assert (25 * 4 <= q <= 25 * 4)%Q as Hq' by lra.
  specialize (Hb ltac:(lia) Hq'). lra.
Qed.

Lemma finite_or_inf_percent (q : Q) :
  (0 <= q <= 100)%Q -> Py.finite_or_inf q = NFloat (Py.to_double q).
Proof.
  intros [Hq0 Hq1]. unfold Py.finite_or_inf.
  rewrite (proj2 (Qgt_bool_true _ _)); [done |].
  rewrite Qabs_pos by done.
  assert (100 < inject_Z Py.FLOAT_INT_LIMIT)%Q
    by (change 100%Q with (inject_Z 100); rewrite <- Zlt_Qlt; reflexivity).
  lra.
Qed.

Lemma part_ratio_bounds (part total : Z) :
  0 <= part -> part <= total -> 0 < total ->
  (0 <= inject_Z part / inject_Z total <= 1)%Q.
Proof.
  intros Hpart Hle Hpos.
  assert (0 < inject_Z total)%Q as Hqpos by (change 0%Q with (inject_Z 0); by rewrite <- Zlt_Qlt).
  assert (0 <= inject_Z part)%Q as Hqpart by (change 0%Q with (inject_Z 0); by rewrite <- Zle_Qle).
  assert (inject_Z part <= inject_Z total)%Q as Hqle by (by rewrite <- Zle_Qle).
  split.
  - apply Qle_shift_div_l; [done |]. lra.
  - apply Qle_shift_div_r; [done |]. lra.
Qed.

(** The quotient of a count by a total it is part of fits a float. *)
Lemma int_truediv_part (part total : Z) :
  0 <= part -> part <= total -> 0 < total ->
  Py.int_truediv part total = Ok (Py.to_double (inject_Z part / inject_Z total)).
Proof.
  intros Hpart Hle Hpos. unfold Py.int_truediv.
  destruct (Z.eqb_spec total 0) as [Hzero|_]; [lia |].
  pose proof (part_ratio_bounds part total Hpart Hle Hpos) as [Hr0 Hr1].
  assert (1 < inject_Z Py.FLOAT_INT_LIMIT)%Q as Hlimit
    by (change 1%Q with (inject_Z 1); rewrite <- Zlt_Qlt; reflexivity).
  cbn zeta. rewrite (proj2 (Qgt_bool_true _ _)); [done |].
  rewrite Qabs_pos by done. lra.
Qed.

(** The percentage of a ratio [x], computed in doubles and rounded to two
    decimals: the double nearest to a whole number of hundredths between 0
    and 100, which the three roundings to a double and the rounding to
    hundredths keep within [1/200 + 2^-44] of the exact percentage. *)
Lemma round_2_percent (x : Q) :
  (0 <= x <= 1)%Q ->
  let hundredths := Py.Qround_half_even (Py.to_double (Py.to_double x * 100) * 100) in
  Py.round (NFloat (Py.to_double (Py.to_double x * 100))) 2
    = NFloat (Py.to_double (inject_Z hundredths / 100)) /\
  0 <= hundredths <= 10000 /\
  (0 <= Py.to_double (inject_Z hundredths / 100) <= 100)%Q /\
  (x * 100 - ((1 # 200) + (1 # 17592186044416))
     <= Py.to_double (inject_Z hundredths / 100)
     <= x * 100 + ((1 # 200) + (1 # 17592186044416)))%Q.
Proof.
  intros Hx. cbn zeta.
  destruct (to_double_unit x Hx) as [Hratio Hratio_err].
  set (ratio := Py.to_double x) in *.
  assert (0 <= ratio * 100 <= 100)%Q as Hproduct by lra.
  destruct (to_double_percent _ Hproduct) as [Hpercent Hpercent_err].
  set (percent := Py.to_double (ratio * 100)) in *.
  split; [reflexivity |].
  assert (0 <= Py.Qround_half_even (percent * 100) <= 10000) as Hz.
  { apply Qround_half_even_between.
    change (inject_Z 0) with 0%Q. change (inject_Z 10000) with 10000%Q. lra. }
  pose proof (Qround_half_even_near (percent * 100)) as Hnear.
  set (z := Py.Qround_half_even (percent * 100)) in *.
  assert (0 <= inject_Z z <= 10000)%Q as Hzq.
  { change 0%Q with (inject_Z 0). change 10000%Q with (inject_Z 10000).
    rewrite <- !Zle_Qle. exact Hz. }
  assert (inject_Z z / 100 * 100 == inject_Z z)%Q as Hw by (field; lra).
  set (w := (inject_Z z / 100)%Q) in *.
  assert (0 <= w <= 100)%Q as Hw100 by lra.
  destruct (to_double_percent w Hw100) as [Hr Hr_err].
  split; [exact Hz |]. split; [exact Hr |]. lra.
Qed.

(** ** Removing a list of keys *)

Lemma lookup_without_keys (ks : list string) (c : gmap string CacheEntry) (k : string) :
  without_keys ks c !! k = if decide (k ∈ ks) then None else c !! k.
Proof.
  unfold without_keys. revert c. induction ks as [|k' ks IH]; intros c; simpl.
  - destruct (decide (k ∈ [])) as [Hin%elem_of_nil|]; done.
  - rewrite IH. destruct (decide (k ∈ ks)) as [Hin|Hnin].
    + destruct (decide (k ∈ k' :: ks)) as [|Hn]; [done |]. destruct Hn. by right.
    + destruct (decide (k ∈ k' :: ks)) as [[->|Hin]%elem_of_cons|Hn].
      * apply lookup_delete_eq.
      * done.
      * apply lookup_delete_ne. intros ->. apply Hn. left.
Qed.

Lemma without_keys_Permutation (ks1 ks2 : list string) (c : gmap string CacheEntry) :
  ks1 ≡ₚ ks2 -> without_keys ks1 c = without_keys ks2 c.
Proof.
  intros Hperm. apply map_eq. intros k. rewrite !lookup_without_keys.
  destruct (decide (k ∈ ks1)) as [H1|H1], (decide (k ∈ ks2)) as [H2|H2]; try done.
  - destruct H2. by rewrite <- Hperm.
  - destruct H1. by rewrite Hperm.
Qed.

Lemma size_without_keys (ks : list string) (c : gmap string CacheEntry) :
  NoDup ks ->
  (forall k, k ∈ ks -> is_Some (c !! k)) ->
  (size (without_keys ks c) + length ks = size c)%nat.
Proof.
  unfold without_keys. revert c. induction ks as [|k ks IH]; intros c Hnd Hin; simpl.
  - lia.
  - apply NoDup_cons in Hnd as [Hk Hnd].
    assert (is_Some (c !! k)) as Hck by (apply Hin; left).
    assert (size c ≠ 0%nat) as Hsz by (by apply (map_size_ne_0_lookup_2 c k)).
    pose proof (map_size_delete_Some k c Hck) as Hdel.
    assert (forall k', k' ∈ ks -> is_Some (delete k c !! k')) as Hin'.
    { intros k' Hk'. rewrite lookup_delete_ne by (intros ->; done).
      apply Hin. by right. }
    specialize (IH (delete k c) Hnd Hin'). lia.
Qed.

(** ** The deleting loops *)

Lemma for_each_del_spec (tick : M unit) (upd : Stats -> Stats) :
  (forall self, tick self = (Ok tt, with_stats self (upd (_stats self)))) ->
  forall (ks : list string) (self : CacheManager),
    NoDup ks ->
    (forall k, k ∈ ks -> is_Some (_cache self !! k)) ->
    for_each ks (fun key => del_cache key ;; tick) self =
      (Ok tt, {| _cache := without_keys ks (_cache self);
                 _ttl_config := _ttl_config self;
                 _stats := Nat.iter (length ks) upd (_stats self) |}).
Proof.
  intros Htick ks. induction ks as [|k ks IH]; intros self Hnd Hin.
  - by destruct self.
  - apply NoDup_cons in Hnd as [Hk Hnd].
    destruct (Hin k) as [e He]; [by left |].
    cbn [for_each]. unfold bind at 1. unfold bind at 1.
    unfold del_cache, bind, read_cache, lift, write_cache, Py.delitem. rewrite He.
    rewrite Htick. cbn [_cache _ttl_config _stats with_stats].
    rewrite IH; [| done |]; cbn [_cache _ttl_config _stats with_stats].
    + f_equal. f_equal. cbn [length]. by rewrite Nat.iter_succ_r.
    + intros k' Hk'. rewrite lookup_delete_ne by (intros ->; done).
      apply Hin. by right.
Qed.

Lemma iter_count_evictions (n : nat) (s : Stats) :
  Nat.iter n (count_evictions 1) s = count_evictions (Z.of_nat n) s.
Proof.
  induction n as [|n IH].
  - destruct s. unfold count_evictions. simpl. f_equal. lia.
  - rewrite Nat.iter_succ, IH. unfold count_evictions. simpl. f_equal. lia.
Qed.

Lemma iter_count_invalidations (n : nat) (s : Stats) :
  Nat.iter n (count_invalidations 1) s = count_invalidations (Z.of_nat n) s.
Proof.
  induction n as [|n IH].
  - destruct s. unfold count_invalidations. simpl. f_equal. lia.
  - rewrite Nat.iter_succ, IH. unfold count_invalidations. simpl. f_equal. lia.
Qed.

(** The keys collected by a scan of the items are distinct keys of the store. *)
Lemma scan_keys_NoDup (P : string * CacheEntry -> Prop) `{!forall x, Decision (P x)}
    (c : gmap string CacheEntry) :
  NoDup (filter P (map_to_list c)).*1.
Proof.
  apply NoDup_fmap_fst.
  - intros k e1 e2 [_ H1]%list_elem_of_filter [_ H2]%list_elem_of_filter.
    apply elem_of_map_to_list in H1, H2. congruence.
  - apply NoDup_filter, NoDup_map_to_list.
Qed.

Lemma scan_keys_elem (P : string * CacheEntry -> Prop) `{!forall x, Decision (P x)}
    (c : gmap string CacheEntry) (k : string) :
  k ∈ (filter P (map_to_list c)).*1 <-> exists e, c !! k = Some e /\ P (k, e).
Proof.
  rewrite list_elem_of_fmap. split.
  - intros [[k' e] [-> [HP Hin]%list_elem_of_filter]].
    exists e. by apply elem_of_map_to_list in Hin.
  - intros [e [He HP]]. exists (k, e). split; [done |].
    apply list_elem_of_filter. split; [done |]. by apply elem_of_map_to_list.
Qed.

Lemma pattern_keys_NoDup (pattern : string) (c : gmap string CacheEntry) :
  NoDup (filter (fun key => Py.str_contains pattern key = true) (Py.keys c)).
Proof. apply NoDup_filter, NoDup_fst_map_to_list. Qed.

Lemma pattern_keys_elem (pattern : string) (c : gmap string CacheEntry) (k : string) :
  k ∈ filter (fun key => Py.str_contains pattern key = true) (Py.keys c) <->
  is_Some (c !! k) /\ Py.str_contains pattern k = true.
Proof.
  rewrite list_elem_of_filter. unfold Py.keys. rewrite list_elem_of_fmap. split.
  - intros [HP [[k' e] [-> Hin]]]. split; [| done].
    exists e. by apply elem_of_map_to_list in Hin.
  - intros [[e He] HP]. split; [done |]. exists (k, e).
    split; [done |]. by apply elem_of_map_to_list.
Qed.

(** ** The methods, one by one *)

Lemma get_absent (now : Q) (key : string) (t : CacheDataType) (self : CacheManager) :
  _cache self !! key = None ->
  get now key t self = (Ok VNone, with_stats self (count_miss (_stats self))).
Proof. intros Hk. unfold get, bind, read_cache. by rewrite Hk. Qed.

Lemma get_expired (now : Q) (key : string) (t : CacheDataType) (self : CacheManager)
    (entry : CacheEntry) :
  _cache self !! key = Some entry ->
  (expires_at entry < now)%Q ->
  get now key t self =
    (Ok VNone,
     {| _cache := delete key (_cache self);
        _ttl_config := _ttl_config self;
        _stats := count_miss (count_evictions 1 (_stats self)) |}).
Proof.
  intros Hk Hexp. apply Qgt_bool_true in Hexp.
  unfold get, bind, read_cache. rewrite Hk. unfold is_expired. rewrite Hexp.
  unfold del_cache, bind, read_cache, lift, Py.delitem. cbn. by rewrite Hk.
Qed.

Lemma get_live (now : Q) (key : string) (t : CacheDataType) (self : CacheManager)
    (entry : CacheEntry) :
  _cache self !! key = Some entry ->
  (now <= expires_at entry)%Q ->
  get now key t self = (Ok (data entry), with_stats self (count_hit (_stats self))).
Proof.
  intros Hk Hlive. apply Qgt_bool_false in Hlive.
  unfold get, bind, read_cache. rewrite Hk. unfold is_expired. by rewrite Hlive.
Qed.

(** The time-to-live that [set] uses. *)
Lemma set_stores (now : Q) (key : string) (payload : value) (t : CacheDataType)
    (ttl_override : option Z) (self : CacheManager) (ttl : Z) :
  from_option Some (_ttl_config self !! t) ttl_override = Some ttl ->
  fits_float ttl ->
  set now key payload t ttl_override self =
    (Ok tt,
     with_cache self
       (<[key := {| data := payload; expires_at := (now + inject_Z ttl)%Q;
                    created_at := now; data_type := t |}]> (_cache self))).
Proof.
  intros Httl Hfit. unfold set.
  destruct ttl_override as [t'|]; simpl in Httl.
  - injection Httl as ->.
    unfold bind, ret, lift, Py.float_add_int. rewrite (float_of_int_fits _ Hfit). done.
  - unfold bind, ret, lift, read_ttl_config, Py.getitem. rewrite Httl.
    unfold Py.float_add_int. rewrite (float_of_int_fits _ Hfit). done.
Qed.

Lemma set_overflows (now : Q) (key : string) (payload : value) (t : CacheDataType)
    (ttl_override : option Z) (self : CacheManager) (ttl : Z) :
  from_option Some (_ttl_config self !! t) ttl_override = Some ttl ->
  ~ fits_float ttl ->
  set now key payload t ttl_override self = (Raise OverflowError, self).
Proof.
  intros Httl Hfit. unfold set.
  destruct ttl_override as [t'|]; simpl in Httl.
  - injection Httl as ->.
    unfold bind, ret, lift, Py.float_add_int. rewrite (float_of_int_overflow _ Hfit). done.
  - unfold bind, ret, lift, read_ttl_config, Py.getitem. rewrite Httl.
    unfold Py.float_add_int. rewrite (float_of_int_overflow _ Hfit). done.
Qed.

Lemma set_unconfigured (now : Q) (key : string) (payload : value) (t : CacheDataType)
    (self : CacheManager) :
  _ttl_config self !! t = None ->
  set now key payload t None self = (Raise KeyError, self).
Proof.
  intros Httl. unfold set, bind, ret, lift, read_ttl_config, Py.getitem. by rewrite Httl.
Qed.

Lemma set_cases (now : Q) (key : string) (payload : value) (t : CacheDataType)
    (ttl_override : option Z) (self : CacheManager) :
  (exists e, set now key payload t ttl_override self = (Raise e, self)) \/
  (exists ttl,
     from_option Some (_ttl_config self !! t) ttl_override = Some ttl /\
     fits_float ttl /\
     set now key payload t ttl_override self =
       (Ok tt,
        with_cache self
          (<[key := {| data := payload; expires_at := (now + inject_Z ttl)%Q;
                       created_at := now; data_type := t |}]> (_cache self)))).
Proof.
  destruct (from_option Some (_ttl_config self !! t) ttl_override) as [ttl|] eqn:Httl.
  - destruct (Z_lt_dec (Z.abs ttl) Py.FLOAT_INT_LIMIT) as [Hfit|Hfit].
    + right. exists ttl. split; [done |]. split; [done |]. by apply set_stores.
    + left. exists OverflowError. by apply (set_overflows _ _ _ _ _ _ ttl).
  - left. exists KeyError. destruct ttl_override; [done |]. by apply set_unconfigured.
Qed.

Lemma invalidate_present (key : string) (self : CacheManager) :
  is_Some (_cache self !! key) ->
  invalidate key self =
    (Ok true,
     {| _cache := delete key (_cache self);
        _ttl_config := _ttl_config self;
        _stats := count_invalidations 1 (_stats self) |}).
Proof.
  intros Hk. unfold invalidate, bind, read_cache, Py.contains.
  rewrite bool_decide_eq_true_2 by done.
  destruct Hk as [e He].
  unfold del_cache, bind, read_cache, lift, Py.delitem. cbn. by rewrite He.
Qed.

Lemma invalidate_absent (key : string) (self : CacheManager) :
  _cache self !! key = None ->
  invalidate key self = (Ok false, self).
Proof.
  intros Hk. unfold invalidate, bind, read_cache, Py.contains.
  rewrite bool_decide_eq_false_2; [done |]. rewrite Hk. by intros [? ?].
Qed.

(** The three sweeps: collect the keys, delete each, count each. *)
Lemma invalidate_by_pattern_sweeps (pattern : string) (self : CacheManager) :
  let ks := filter (fun key => Py.str_contains pattern key = true) (Py.keys (_cache self)) in
  invalidate_by_pattern pattern self =
    (Ok (Z.of_nat (length ks)),
     {| _cache := without_keys ks (_cache self);
        _ttl_config := _ttl_config self;
        _stats := count_invalidations (Z.of_nat (length ks)) (_stats self) |}).
Proof.
  intros ks. unfold invalidate_by_pattern. unfold bind at 1. unfold read_cache.
  unfold bind at 1. fold ks.
  rewrite (for_each_del_spec (add_invalidations 1) (count_invalidations 1)).
  - unfold ret. by rewrite iter_count_invalidations.
  - done.
  - apply pattern_keys_NoDup.
  - intros k Hk. by apply pattern_keys_elem in Hk as [? _].
Qed.

Lemma invalidate_by_type_sweeps (t : CacheDataType) (self : CacheManager) :
  let ks := (filter (fun kv => has_data_type t (kv.2) = true)
               (map_to_list (_cache self))).*1 in
  invalidate_by_type t self =
    (Ok (Z.of_nat (length ks)),
     {| _cache := without_keys ks (_cache self);
        _ttl_config := _ttl_config self;
        _stats := count_invalidations (Z.of_nat (length ks)) (_stats self) |}).
Proof.
  intros ks. unfold invalidate_by_type. unfold bind at 1. unfold read_cache.
  unfold bind at 1. unfold Py.items. fold ks.
  rewrite (for_each_del_spec (add_invalidations 1) (count_invalidations 1)).
  - unfold ret. by rewrite iter_count_invalidations.
  - done.
  - apply scan_keys_NoDup.
  - intros k Hk. apply scan_keys_elem in Hk as [e [He _]]. by exists e.
Qed.

Lemma cleanup_expired_sweeps (now : Q) (self : CacheManager) :
  let ks := (filter (fun kv => Qle_bool (expires_at (kv.2)) now = true)
               (map_to_list (_cache self))).*1 in
  cleanup_expired now self =
    (Ok (Z.of_nat (length ks)),
     {| _cache := without_keys ks (_cache self);
        _ttl_config := _ttl_config self;
        _stats := count_evictions (Z.of_nat (length ks)) (_stats self) |}).
Proof.
  intros ks. unfold cleanup_expired. unfold bind at 1. unfold read_cache.
  unfold bind at 1. unfold Py.items. fold ks.
  rewrite (for_each_del_spec (add_evictions 1) (count_evictions 1)).
  - unfold ret. by rewrite iter_count_evictions.
  - done.
  - apply scan_keys_NoDup.
  - intros k Hk. apply scan_keys_elem in Hk as [e [He _]]. by exists e.
Qed.

Lemma clear_empties (self : CacheManager) :
  clear self =
    (Ok (Z.of_nat (size (_cache self))),
     {| _cache := ∅;
        _ttl_config := _ttl_config self;
        _stats := count_invalidations (Z.of_nat (size (_cache self))) (_stats self) |}).
Proof. done. Qed.

(** ** The read-only methods *)

Lemma get_stats_state (self : CacheManager) : snd (get_stats self) = self.
Proof.
  unfold get_stats, bind, read_stats, read_cache, lift, ret.
  destruct (0 <? _); [| done].
  destruct (Py.int_truediv _ _); [| done].
  by destruct (Py.float_mul_int _ _).
Qed.

Lemma get_stats_value (self : CacheManager) :
  counters_nonneg (_stats self) ->
  let s := _stats self in
  let total := hits s + misses s in
  get_stats self =
    (Ok {| StatsDict.hits := hits s;
           StatsDict.misses := misses s;
           StatsDict.hit_rate_percent :=
             if 0 <? total
             then Py.round
                    (NFloat (Py.to_double
                               (Py.to_double (inject_Z (hits s) / inject_Z total) * 100))) 2
             else NInt 0;
           StatsDict.evictions := evictions s;
           StatsDict.invalidations := invalidations s;
           StatsDict.total_entries := Z.of_nat (size (_cache self));
           StatsDict.total_requests := total |},
     self).
Proof.
  intros (Hh & Hm & _) s total.
  unfold get_stats, bind, read_stats, read_cache. fold s. fold total.
  destruct (Z.ltb_spec 0 total) as [Hpos|Hzero]; [| done].
  unfold lift. rewrite int_truediv_part by (subst s total; lia).
  unfold Py.float_mul_int.
  rewrite (float_of_int_fits 100) by (by apply fits_float_small).
  cbn [result_bind]. change (inject_Z 100) with 100%Q.
  rewrite finite_or_inf_percent; [done |].
  assert (0 <= inject_Z (hits s) / inject_Z total <= 1)%Q as Hratio
    by (apply part_ratio_bounds; subst s total; lia).
  destruct (to_double_unit _ Hratio) as [[? ?] _]. lra.
Qed.

Lemma get_cache_info_body_returns (current_time now_entry : Q) (entry : CacheEntry)
    (st : CacheInfo.t * list Q) :
  exists st', get_cache_info_body current_time now_entry entry st = Ok st'.
Proof.
  destruct st as [info ages]. unfold get_cache_info_body.
  set (tn := CacheDataType_value (data_type entry)).
  set (bt := if negb (Py.contains (CacheInfo.entries_by_type info) tn) then _ else _).
  assert (is_Some (bt !! tn)) as [ti Hti].
  { subst bt. unfold Py.contains. case_bool_decide as Hc; simpl.
    - done.
    - unfold Py.setitem. rewrite lookup_insert_eq. by eexists. }
  unfold Py.getitem at 1. rewrite Hti. cbn [result_bind].
  destruct (is_expired now_entry entry); [| by eexists].
  unfold Py.getitem, Py.setitem. rewrite lookup_insert_eq. cbn [result_bind]. by eexists.
Qed.

Lemma get_cache_info_loop_returns (current_time : Q) (clock : nat -> Q)
    (entries : list CacheEntry) :
  forall (i : nat) (st : CacheInfo.t * list Q),
    exists st', get_cache_info_loop current_time clock i entries st = Ok st'.
Proof.
  induction entries as [|entry entries IH]; intros i st; simpl.
  - by eexists.
  - destruct (get_cache_info_body_returns current_time (clock i) entry st) as [st' ->].
    apply IH.
Qed.

Lemma get_cache_info_returns (now : Q) (clock : nat -> Q) (self : CacheManager) :
  exists info, get_cache_info now clock self = (Ok info, self).
Proof.
  unfold get_cache_info, bind, read_cache.
  destruct (negb (Py.truthy (_cache self))); [by eexists |].
  unfold lift.
  match goal with
  | |- context [get_cache_info_loop ?a ?b ?c ?d ?e] =>
      destruct (get_cache_info_loop_returns a b d c e) as [[info ages] ->]
  end.
  destruct ages as [|age ages]; by eexists.
Qed.

Lemma log_performance_summary_returns (now : Q) (clock : nat -> Q) (self : CacheManager) :
  counters_nonneg (_stats self) ->
  log_performance_summary now clock self = (Ok tt, self).
Proof.
  intros Hnonneg.
  unfold log_performance_summary. unfold bind at 1. rewrite get_stats_value by done.
  unfold bind. by destruct (get_cache_info_returns now clock self) as [info ->].
Qed.

Lemma log_performance_summary_state (now : Q) (clock : nat -> Q) (self : CacheManager) :
  snd (log_performance_summary now clock self) = self.
Proof.
  unfold log_performance_summary. unfold bind at 1.
  pose proof (get_stats_state self) as Hstate.
  destruct (get_stats self) as [[d|e] self']; cbn in Hstate; subst self'; [| done].
  unfold bind. by destruct (get_cache_info_returns now clock self) as [info ->].
Qed.

(** ** What every call keeps *)

Lemma without_keys_absent (ks : list string) (c : gmap string CacheEntry) (k : string) :
  c !! k = None -> without_keys ks c !! k = None.
Proof. intros Hk. rewrite lookup_without_keys. by destruct (decide (k ∈ ks)). Qed.

Lemma after_keeps (c : call) (self : CacheManager) : keeps c self (after c self).
Proof.
  destruct c as [now key t|now key payload t ovr|key|pattern|t| |now| |now clock|b|now clock];
    cbn [after].
  - destruct (_cache self !! key) as [entry|] eqn:Hk.
    + destruct (Qlt_le_dec (expires_at entry) now) as [Hexp|Hlive].
      * rewrite (get_expired _ _ _ _ _ Hk Hexp).
        keeps_by_computation.
        intros k _ Hnone. destruct (decide (key = k)) as [->|Hne].
        -- apply lookup_delete_eq.
        -- by rewrite lookup_delete_ne.
      * rewrite (get_live _ _ _ _ _ Hk Hlive). keeps_by_computation.
    + rewrite (get_absent _ _ _ _ Hk). keeps_by_computation.
  - destruct (set_cases now key payload t ovr self) as [[e ->]|[ttl [_ [_ ->]]]].
    + keeps_by_computation.
    + keeps_by_computation.
      intros k Hset Hnone. apply bool_decide_eq_false in Hset.
      by rewrite lookup_insert_ne.
  - destruct (_cache self !! key) as [entry|] eqn:Hk.
    + rewrite (invalidate_present key self) by (by eexists).
      keeps_by_computation.
      intros k _ Hnone. destruct (decide (key = k)) as [->|Hne].
      * apply lookup_delete_eq.
      * by rewrite lookup_delete_ne.
    + rewrite (invalidate_absent _ _ Hk). keeps_by_computation.
  - rewrite invalidate_by_pattern_sweeps.
    split; cbn; try lia; try done. intros k _. apply without_keys_absent.
  - rewrite invalidate_by_type_sweeps.
    split; cbn; try lia; try done. intros k _. apply without_keys_absent.
  - rewrite clear_empties. keeps_by_computation.
  - rewrite cleanup_expired_sweeps.
    split; cbn; try lia; try done. intros k _. apply without_keys_absent.
  - rewrite get_stats_state. keeps_by_computation.
  - destruct (get_cache_info_returns now clock self) as [info ->].
    keeps_by_computation.
  - keeps_by_computation.
  - rewrite log_performance_summary_state. keeps_by_computation.
Qed.

Lemma after_all_snoc (cs : list call) (c : call) (self : CacheManager) :
  after_all (cs ++ [c]) self = after c (after_all cs self).
Proof. unfold after_all. by rewrite foldl_app. Qed.

Lemma after_all_ttl_config (cs : list call) (self : CacheManager) :
  _ttl_config (after_all cs self) = _ttl_config self.
Proof.
  induction cs as [|c cs IH] using rev_ind; [done |].
  rewrite after_all_snoc. by rewrite (keeps_ttl_config _ _ _ (after_keeps c _)).
Qed.

Lemma after_all_counters_nonneg (cs : list call) (self : CacheManager) :
  counters_nonneg (_stats self) -> counters_nonneg (_stats (after_all cs self)).
Proof.
  intros Hself. induction cs as [|c cs IH] using rev_ind; [done |].
  rewrite after_all_snoc. destruct (after_keeps c (after_all cs self)).
  unfold counters_nonneg in *. lia.
Qed.

Lemma after_all_absent (cs : list call) (self : CacheManager) (k : string) :
  forallb (fun c => negb (sets_key k c)) cs = true ->
  _cache self !! k = None ->
  _cache (after_all cs self) !! k = None.
Proof.
  intros Hcs Hk. induction cs as [|c cs IH] using rev_ind; [done |].
  rewrite forallb_app in Hcs. apply andb_true_iff in Hcs as [Hcs Hc].
  simpl in Hc. rewrite andb_true_r in Hc. apply negb_true_iff in Hc.
  rewrite after_all_snoc. apply (keeps_absent _ _ _ (after_keeps c _)); [done |].
  by apply IH.
Qed.

(** ** The constructor *)

Lemma DEFAULT_TTL_CONFIG_lookup (t : CacheDataType) :
  DEFAULT_TTL_CONFIG !! t = Some (default_ttl t).
Proof. by destruct t. Qed.

Lemma init_ttl_config (ttl_config : option (gmap CacheDataType Z)) (t : CacheDataType) :
  _ttl_config (__init__ ttl_config) !! t =
    Some (default (default_ttl t) (ttl_config ≫= (.!! t))).
Proof.
  unfold __init__. cbn [_ttl_config].
  destruct ttl_config as [ov|]; cbn; [| apply DEFAULT_TTL_CONFIG_lookup].
  unfold Py.truthy. case_bool_decide as Hempty; cbn.
  - subst ov. rewrite lookup_empty. apply DEFAULT_TTL_CONFIG_lookup.
  - unfold Py.update. rewrite lookup_union.
    rewrite DEFAULT_TTL_CONFIG_lookup. by destruct (ov !! t).
Qed.

Lemma reachable_from_ttl_config (ttl_config : option (gmap CacheDataType Z))
    (self : CacheManager) (t : CacheDataType) :
  reachable_from ttl_config self ->
  _ttl_config self !! t = Some (default (default_ttl t) (ttl_config ≫= (.!! t))).
Proof. intros [cs ->]. rewrite after_all_ttl_config. apply init_ttl_config. Qed.

Lemma reachable_counters_nonneg (self : CacheManager) :
  reachable self -> counters_nonneg (_stats self).
Proof.
  intros [cfg [cs ->]]. apply after_all_counters_nonneg.
  unfold counters_nonneg. cbn. lia.
Qed.

(** ** Substrings *)

Lemma append_String (a : Ascii.ascii) (s t : string) :
  (String a s +:+ t)%string = String a (s +:+ t).
Proof. reflexivity. Qed.

Lemma prefix_app (p k : string) :
  String.prefix p k = true <-> exists rest, k = (p +:+ rest)%string.
Proof.
  revert k. induction p as [|a p IH]; intros [|b k]; simpl.
  - split; [intros _; by exists ""%string | done].
  - split; [intros _; by exists (String b k) | done].
  - split; [done | by intros [rest ?]].
  - destruct (Ascii.ascii_dec a b) as [->|Hne].
    + rewrite IH. split; intros [rest Hrest]; exists rest;
        rewrite append_String in *; congruence.
    + split; [done | intros [rest Hrest]; rewrite append_String in Hrest; congruence].
Qed.

Lemma str_contains_empty (pattern : string) :
  Py.str_contains pattern "" = String.prefix pattern "" || false.
Proof. reflexivity. Qed.

Lemma str_contains_String (pattern : string) (a : Ascii.ascii) (key : string) :
  Py.str_contains pattern (String a key) =
    String.prefix pattern (String a key) || Py.str_contains pattern key.
Proof. reflexivity. Qed.

Lemma str_contains_is_substring (pattern key : string) :
  Py.str_contains pattern key = true <-> is_substring pattern key.
Proof.
  unfold is_substring. induction key as [|a key IH].
  - rewrite str_contains_empty, orb_false_r, prefix_app. split.
    + intros [rest Hrest]. by exists ""%string, rest.
    + intros [[|b before] [rest Hrest]]; [by exists rest | done].
  - rewrite str_contains_String, orb_true_iff, prefix_app, IH. split.
    + intros [[rest Hrest]|[before [rest Hrest]]].
      * by exists ""%string, rest.
      * exists (String a before), rest. rewrite append_String. by rewrite Hrest.
    + intros [[|b before] [rest Hrest]].
      * left. by exists rest.
      * right. exists before, rest. rewrite append_String in Hrest. congruence.
Qed.

(** ** Sweeps, key by key *)

Lemma scan_sweep_lookup (P : string * CacheEntry -> Prop) `{!forall x, Decision (P x)}
    (c : gmap string CacheEntry) (k : string) :
  without_keys (filter P (map_to_list c)).*1 c !! k =
    match c !! k with
    | Some e => if decide (P (k, e)) then None else Some e
    | None => None
    end.
Proof.
  rewrite lookup_without_keys.
  destruct (decide (k ∈ (filter P (map_to_list c)).*1)) as [Hin|Hnin].
  - apply scan_keys_elem in Hin as [e [-> HP]]. by rewrite decide_True.
  - destruct (c !! k) as [e|] eqn:Hk; [| done].
    destruct (decide (P (k, e))) as [HP|HP]; [| done].
    destruct Hnin. apply scan_keys_elem. by exists e.
Qed.

Lemma pattern_sweep_lookup (pattern : string) (c : gmap string CacheEntry) (k : string) :
  without_keys (filter (fun key => Py.str_contains pattern key = true) (Py.keys c)) c !! k =
    if Py.str_contains pattern k then None else c !! k.
Proof.
  rewrite lookup_without_keys.
  destruct (decide (k ∈ filter (fun key => Py.str_contains pattern key = true) (Py.keys c)))
    as [Hin|Hnin].
  - apply pattern_keys_elem in Hin as [_ ->]. done.
  - destruct (Py.str_contains pattern k) eqn:Hp; [| done].
    destruct (c !! k) as [e|] eqn:Hk; [| done].
    destruct Hnin. apply pattern_keys_elem. split; [by exists e | done].
Qed.

(** ** Scenarios *)

(** Overwriting a key: the second payload is served, two hits, one entry. *)
Example scenario_overwrite :
  let payload_a := VDict [("name", VStr "A")] in
  let payload_b := VDict [("name", VStr "B")] in
  let m1 := snd (set 0 "p1" payload_a PLAYER_DATA None (__init__ None)) in
  let '(r1, m2) := get 1 "p1" PLAYER_DATA m1 in
  let m3 := snd (set 2 "p1" payload_b PLAYER_DATA None m2) in
  let '(r2, m4) := get 3 "p1" PLAYER_DATA m3 in
  r1 = Ok payload_a /\ hits (_stats m2) = 1 /\
  r2 = Ok payload_b /\ hits (_stats m4) = 2 /\
  match fst (get_stats m4) with
  | Ok d => StatsDict.total_entries d = 1
  | Raise _ => False
  end.
Proof. vm_compute. repeat split. Qed.

(** An entry with a time-to-live of one second, read two seconds later. *)
Example scenario_short_ttl :
  let m1 := snd (set 0 "m:1" (VInt 7) MATCHUP_DATA (Some 1) (__init__ None)) in
  let '(r, m2) := get 2 "m:1" MATCHUP_DATA m1 in
  r = Ok VNone /\
  _stats m2 = {| hits := 0; misses := 1; evictions := 1; invalidations := 0 |} /\
  _cache m2 = ∅.
Proof. vm_compute. repeat split. Qed.

(** Invalidation by category removes the entries of that category only. *)
Example scenario_invalidate_by_type :
  let m1 := after_all [CallSet 0 "a" (VInt 1) ROSTER_DATA None;
                       CallSet 0 "b" (VInt 2) PLAYER_DATA None] (__init__ None) in
  let '(r, m2) := invalidate_by_type ROSTER_DATA m1 in
  r = Ok 1 /\ _cache m2 !! "a" = None /\ _cache m2 !! "b" = _cache m1 !! "b".
Proof. vm_compute. repeat split. Qed.

(** A key that was never set is a miss, and [clear] counts what it drops. *)
Example scenario_miss_and_clear :
  let m1 := after_all [CallSet 0 "a" (VInt 1) ROSTER_DATA None;
                       CallSet 0 "b" (VInt 2) PLAYER_DATA None;
                       CallGet 1 "zz" PLAYER_DATA] (__init__ None) in
  let '(r, m2) := clear m1 in
  _stats m1 = {| hits := 0; misses := 1; evictions := 0; invalidations := 0 |} /\
  r = Ok 2 /\ _cache m2 = ∅ /\ invalidations (_stats m2) = 2.
Proof. vm_compute. repeat split. Qed.

(** Rounding to two decimals: a tie goes to the even neighbour, an int stays
    an int, and the result is the double nearest to the decimal. *)
Example scenario_round :
  Py.round (NFloat (3125 # 1000)) 2 = NFloat (Py.to_double (312 # 100)) /\
  Py.round (NFloat (Py.to_double (1 # 3))) 2 = NFloat (Py.to_double (33 # 100)) /\
  Py.round (NInt 0) 2 = NInt 0.
Proof. vm_compute. repeat split. Qed.

(** The hit rate is computed in doubles: 23 hits in 160 requests are 14.375
    percent, the double product is just below it, and the rate is 14.37. *)
Example scenario_hit_rate_in_doubles :
  let product := Py.to_double (Py.to_double (23 # 160) * 100) in
  (product < 14375 # 1000)%Q /\
  Py.round (NFloat product) 2 = NFloat (Py.to_double (1437 # 100)) /\
  Py.round (NFloat (Py.to_double (Py.to_double (49 # 160) * 100))) 2
    = NFloat (Py.to_double (3063 # 100)).
Proof. vm_compute. repeat split. Qed.

(** * The claims *)

(** C1. For every key, payload and category: right after a [set] with no
    time-to-live override, a [get] of the key made while less than the
    category's time-to-live has elapsed returns exactly the payload that was
    set and adds one to [hits]; [misses], [evictions] and [invalidations] (and
    the store) are as they were. The category passed to [get] is free. *)
Theorem get_after_set_within_ttl
    (now_set now_get : Q) (key : string) (payload : value)
    (category any_category : CacheDataType) (self self1 : CacheManager) (ttl : Z) :
  _ttl_config self !! category = Some ttl ->
  set now_set key payload category None self = (Ok tt, self1) ->
  (now_get - now_set < inject_Z ttl)%Q ->
  exists self2,
    get now_get key any_category self1 = (Ok payload, self2) /\
    hits (_stats self2) = hits (_stats self1) + 1 /\
    misses (_stats self2) = misses (_stats self1) /\
    evictions (_stats self2) = evictions (_stats self1) /\
    invalidations (_stats self2) = invalidations (_stats self1) /\
    _cache self2 = _cache self1.
Proof.
  intros Httl Hset Helapsed.
  destruct (set_cases now_set key payload category None self)
    as [[e Hraise]|[ttl' [Httl' [_ Hstored]]]]; [congruence |].
  cbn in Httl'. assert (ttl' = ttl) as -> by congruence.
  rewrite Hstored in Hset. injection Hset as <-.
  erewrite get_live; [| cbn; apply lookup_insert_eq | cbn; lra].
  eexists. split; [reflexivity | done].
Qed.

Lemma get_after_set_within_ttl_witness :
  exists self2,
    get 101 "p1" ROSTER_DATA
      (snd (set 100 "p1" (VStr "A") PLAYER_DATA None (__init__ None))) =
      (Ok (VStr "A"), self2) /\
    hits (_stats self2) = 1.
Proof.
  destruct (get_after_set_within_ttl 100 101 "p1" (VStr "A") PLAYER_DATA ROSTER_DATA
              (__init__ None)
              (snd (set 100 "p1" (VStr "A") PLAYER_DATA None (__init__ None))) 3600)
    as (self2 & Hget & Hhits & _).
  - reflexivity.
  - reflexivity.
  - reflexivity.
  - exists self2. split; [exact Hget | exact Hhits].
Defined.

(** C2, at the input where the code fails it. The clock reads 100 at
    [set("k", "v", PLAYER_DATA, ttl_override=0)] and still reads 100 at the
    [get] that follows. The entry expires at the reading of the [set], and
    [is_expired] asks for a reading past it: the [get] returns the payload
    and counts a hit, with no eviction and no miss. [cleanup_expired] at
    that same reading removes the entry as expired. *)
Lemma zero_ttl_entry_served_at_same_clock_reading :
  let self1 := snd (set 100 "k" (VStr "v") PLAYER_DATA (Some 0) (__init__ None)) in
  fst (get 100 "k" PLAYER_DATA self1) = Ok (VStr "v") /\
  fst (get 100 "k" PLAYER_DATA self1) <> Ok VNone /\
  _stats (snd (get 100 "k" PLAYER_DATA self1)) =
    {| hits := 1; misses := 0; evictions := 0; invalidations := 0 |} /\
  fst (cleanup_expired 100 self1) = Ok 1 /\
  _cache (snd (cleanup_expired 100 self1)) !! "k" = None.
Proof.
  vm_compute. split; [reflexivity |]. split; [discriminate |].
  split; [reflexivity |]. split; reflexivity.
Qed.

(** C3. [cleanup_expired] removes exactly the entries whose expiration is at
    or before the current time, leaves every other entry as it is, adds the
    number of removed entries to [evictions], and returns that number. *)
Theorem cleanup_expired_removes_expired_only (now : Q) (self : CacheManager) :
  exists (n : nat) (self' : CacheManager),
    cleanup_expired now self = (Ok (Z.of_nat n), self') /\
    (forall k e, _cache self !! k = Some e -> (expires_at e <= now)%Q ->
                 _cache self' !! k = None) /\
    (forall k e, _cache self !! k = Some e -> ~ (expires_at e <= now)%Q ->
                 _cache self' !! k = Some e) /\
    (forall k, _cache self !! k = None -> _cache self' !! k = None) /\
    (size (_cache self') + n = size (_cache self))%nat /\
    _stats self' =
      {| hits := hits (_stats self);
         misses := misses (_stats self);
         evictions := evictions (_stats self) + Z.of_nat n;
         invalidations := invalidations (_stats self) |} /\
    _ttl_config self' = _ttl_config self.
Proof.
  rewrite cleanup_expired_sweeps. cbn zeta.
  set (P := fun kv : string * CacheEntry => Qle_bool (expires_at (kv.2)) now = true).
  eexists. eexists. split; [reflexivity |]. cbn [_cache _stats _ttl_config].
  split; [| split; [| split; [| split; [| done]]]].
  - intros k e Hk Hexp. rewrite scan_sweep_lookup, Hk.
    rewrite decide_True; [done |]. by apply Qle_bool_iff.
  - intros k e Hk Hlive. rewrite scan_sweep_lookup, Hk.
    rewrite decide_False; [done |]. unfold P. cbn. by rewrite Qle_bool_iff.
  - intros k Hk. by apply without_keys_absent.
  - apply size_without_keys; [apply scan_keys_NoDup |].
    intros k [e [He _]]%scan_keys_elem. by exists e.
Qed.

Lemma cleanup_expired_removes_expired_only_witness :
  let self :=
    after_all [CallSet 0 "old" (VInt 1) ROSTER_DATA (Some 10);
               CallSet 0 "new" (VInt 2) ROSTER_DATA (Some 100)] (__init__ None) in
  exists (n : nat) (self' : CacheManager),
    cleanup_expired 50 self = (Ok (Z.of_nat n), self') /\
    _cache self' !! "old" = None /\
    _cache self' !! "new" = _cache self !! "new".
Proof.
  intros self.
  destruct (cleanup_expired_removes_expired_only 50 self)
    as (n & self' & Hrun & Hexpired & Hlive & _).
  exists n, self'. split; [exact Hrun |]. split.
  - apply (Hexpired "old" {| data := VInt 1; expires_at := 0 + inject_Z 10;
                             created_at := 0; data_type := ROSTER_DATA |});
      [reflexivity | discriminate].
  - rewrite (Hlive "new" {| data := VInt 2; expires_at := 0 + inject_Z 100;
                            created_at := 0; data_type := ROSTER_DATA |});
      [reflexivity | reflexivity | intros Hle; apply Hle; reflexivity].
Defined.

(** C4. In the dictionary returned by [get_stats], [total_requests] is
    [hits + misses]; [hit_rate_percent] is exactly 0 when [total_requests] is
    0, and otherwise it is [round(hits / (hits + misses) * 100, 2)] as Python
    computes it on doubles: the quotient and the product are each rounded to
    the nearest double, and the rate is the double nearest to a whole number
    of hundredths between 0 and 100, within [1/200 + 2^-44] of the exact
    percentage. *)
Theorem get_stats_hit_rate (self : CacheManager) :
  reachable self ->
  let h := hits (_stats self) in
  let m := misses (_stats self) in
  exists d,
    get_stats self = (Ok d, self) /\
    StatsDict.total_requests d = h + m /\
    (StatsDict.total_requests d = 0 -> StatsDict.hit_rate_percent d = NInt 0) /\
    (StatsDict.total_requests d <> 0 ->
       StatsDict.hit_rate_percent d =
         Py.round
           (NFloat (Py.to_double (Py.to_double (inject_Z h / inject_Z (h + m)) * 100))) 2 /\
       exists (r : Q) (hundredths : Z),
         StatsDict.hit_rate_percent d = NFloat r /\
         r = Py.to_double (inject_Z hundredths / 100) /\
         0 <= hundredths <= 10000 /\
         (0 <= r <= 100)%Q /\
         (inject_Z h / inject_Z (h + m) * 100 - ((1 # 200) + (1 # 17592186044416)) <= r
            <= inject_Z h / inject_Z (h + m) * 100 + ((1 # 200) + (1 # 17592186044416)))%Q).
Proof.
  intros Hreach h m.
  pose proof (reachable_counters_nonneg self Hreach) as Hnonneg.
  rewrite get_stats_value by done. destruct Hnonneg as (Hh & Hm & _). cbn zeta. fold h m.
  eexists. split; [reflexivity |]. cbn [StatsDict.total_requests StatsDict.hit_rate_percent].
  split; [done |]. split.
  - intros Hzero. by destruct (Z.ltb_spec 0 (h + m)); [lia |].
  - intros Hnonzero. destruct (Z.ltb_spec 0 (h + m)); [| lia].
    split; [done |].
    destruct (round_2_percent (inject_Z h / inject_Z (h + m))%Q)
      as (Hr & Hwhole & Hrange & Hnear).
    { apply part_ratio_bounds; lia. }
    eexists. eexists.
    split; [exact Hr |]. split; [reflexivity |].
    split; [exact Hwhole |]. split; [exact Hrange | exact Hnear].
Qed.

Lemma get_stats_hit_rate_witness :
  let self :=
    after_all (CallSet 0 "p1" (VStr "A") PLAYER_DATA None
               :: repeat (CallGet 1 "p1" PLAYER_DATA) 23
               ++ repeat (CallGet 1 "p2" PLAYER_DATA) 137) (__init__ None) in
  exists d,
    get_stats self = (Ok d, self) /\
    StatsDict.total_requests d = 160 /\
    StatsDict.hit_rate_percent d = NFloat (Py.to_double (1437 # 100)) /\
    StatsDict.hit_rate_percent d = NFloat (8089590830664253 # 562949953421312).
Proof.
  intros self.
  destruct (get_stats_hit_rate self) as (d & Hrun & Htotal & _ & Hrate).
  - exists None. eexists. reflexivity.
  - exists d. split; [exact Hrun |].
    assert (hits (_stats self) = 23 /\ misses (_stats self) = 137) as [Hh Hm]
      by (vm_compute; split; reflexivity).
    rewrite Hh, Hm in Htotal, Hrate.
    split; [exact Htotal |].
    destruct Hrate as [Hvalue _]; [rewrite Htotal; discriminate |].
    split; rewrite Hvalue; vm_compute; reflexivity.
Defined.

(** C5, as stated, fails: the time-to-live that [set] adds to the clock reading
    is converted to a float, and an [int] beyond the float range raises
    [OverflowError]. *)
Lemma set_raises_on_huge_ttl :
  set 0 "k" VNone PLAYER_DATA (Some (2 ^ 1024)) (__init__ None) =
    (Raise OverflowError, __init__ None).
Proof. apply (set_overflows _ _ _ _ _ _ (2 ^ 1024)); [reflexivity | by vm_compute]. Qed.

(** C5, as the code has it. On every manager made by the constructor and used
    through its methods, every method returns a value and none raises, for
    any key, category and clock reading, and for any time-to-live (zero and
    negative ones too) provided the one that [set] uses, the override or
    else the configured one of the category, fits a float. A missing key is
    reported by [get] as absent and by [invalidate] as false. *)
Theorem methods_return (self : CacheManager) :
  reachable self ->
  (forall now key t, exists v, fst (get now key t self) = Ok v) /\
  (forall now key payload t ttl_override,
     (forall ttl, from_option Some (_ttl_config self !! t) ttl_override = Some ttl ->
                  fits_float ttl) ->
     fst (set now key payload t ttl_override self) = Ok tt) /\
  (forall key, exists b, fst (invalidate key self) = Ok b) /\
  (forall pattern, exists n, fst (invalidate_by_pattern pattern self) = Ok n) /\
  (forall t, exists n, fst (invalidate_by_type t self) = Ok n) /\
  (exists n, fst (clear self) = Ok n) /\
  (forall now, exists n, fst (cleanup_expired now self) = Ok n) /\
  (exists d, fst (get_stats self) = Ok d) /\
  (forall now clock, exists info, fst (get_cache_info now clock self) = Ok info) /\
  (forall is_game_time, exists ttl, fst (get_matchup_ttl is_game_time self) = Ok ttl) /\
  (forall now clock, fst (log_performance_summary now clock self) = Ok tt) /\
  (forall now key t, _cache self !! key = None -> fst (get now key t self) = Ok VNone) /\
  (forall key, _cache self !! key = None -> fst (invalidate key self) = Ok false).
Proof.
  intros Hreachable.
  pose proof (reachable_counters_nonneg self Hreachable) as Hnonneg.
  destruct Hreachable as [cfg Hreach]. repeat split.
  - intros now key t. destruct (_cache self !! key) as [entry|] eqn:Hk.
    + destruct (Qlt_le_dec (expires_at entry) now) as [Hexp|Hlive].
      * rewrite (get_expired _ _ _ _ _ Hk Hexp). by eexists.
      * rewrite (get_live _ _ _ _ _ Hk Hlive). by eexists.
    + rewrite (get_absent _ _ _ _ Hk). by eexists.
  - intros now key payload t ovr Hfits.
    assert (exists ttl, from_option Some (_ttl_config self !! t) ovr = Some ttl) as [ttl Httl].
    { destruct ovr as [ttl|]; [by exists ttl |]. cbn.
      rewrite (reachable_from_ttl_config cfg self t Hreach). by eexists. }
    by rewrite (set_stores _ _ _ _ _ _ ttl Httl (Hfits ttl Httl)).
  - intros key. destruct (_cache self !! key) as [entry|] eqn:Hk.
    + rewrite invalidate_present by (by eexists). by eexists.
    + rewrite (invalidate_absent _ _ Hk). by eexists.
  - intros pattern. rewrite invalidate_by_pattern_sweeps. by eexists.
  - intros t. rewrite invalidate_by_type_sweeps. by eexists.
  - rewrite clear_empties. by eexists.
  - intros now. rewrite cleanup_expired_sweeps. by eexists.
  - rewrite get_stats_value by done. by eexists.
  - intros now clock. destruct (get_cache_info_returns now clock self) as [info ->].
    by exists info.
  - intros b. by eexists.
  - intros now clock. by rewrite log_performance_summary_returns.
  - intros now key t Hk. by rewrite (get_absent _ _ _ _ Hk).
  - intros key Hk. by rewrite (invalidate_absent _ _ Hk).
Qed.

Lemma methods_return_witness :
  fst (set 5 "k" VNone ROSTER_DATA (Some (-3)) (__init__ None)) = Ok tt /\
  fst (get 5 "k" ROSTER_DATA (__init__ None)) = Ok VNone /\
  fst (invalidate "k" (__init__ None)) = Ok false.
Proof.
  pose proof (methods_return (__init__ None)) as Hall.
  destruct Hall as (_ & Hset & _ & _ & _ & _ & _ & _ & _ & _ & _ & Hget & Hinv).
  - exists None, []. reflexivity.
  - split; [| split].
    + apply Hset. intros ttl [= <-]. apply fits_float_small. reflexivity.
    + apply Hget. reflexivity.
    + apply Hinv. reflexivity.
Defined.

(** C6. A manager constructed with no overrides has the time-to-live 3600,
    86400, 3600, 1800 and 900 for the five categories; with an override
    mapping, each category the mapping gives has the mapping's value and every
    other category its default; and on every manager so constructed, [set]
    without a call-site override stores an entry that expires at the clock
    reading plus the time-to-live of the category. *)
Theorem ttl_defaults_and_overrides :
  (default_ttl PLAYER_DATA = 3600 /\ default_ttl LEAGUE_SETTINGS = 86400 /\
   default_ttl MATCHUP_DATA = 3600 /\ default_ttl TRENDING_PLAYERS = 1800 /\
   default_ttl ROSTER_DATA = 900) /\
  (forall t, _ttl_config (__init__ None) !! t = Some (default_ttl t)) /\
  (forall overrides t,
     _ttl_config (__init__ (Some overrides)) !! t =
       Some (match overrides !! t with Some ttl => ttl | None => default_ttl t end)) /\
  (forall ttl_config self now key payload t ttl,
     reachable_from ttl_config self ->
     _ttl_config (__init__ ttl_config) !! t = Some ttl ->
     fits_float ttl ->
     set now key payload t None self =
       (Ok tt,
        with_cache self
          (<[key := {| data := payload; expires_at := (now + inject_Z ttl)%Q;
                       created_at := now; data_type := t |}]> (_cache self)))).
Proof.
  split; [done |]. split; [| split].
  - intros t. by rewrite init_ttl_config.
  - intros overrides t. rewrite init_ttl_config. cbn. by destruct (overrides !! t).
  - intros cfg self now key payload t ttl Hreach Httl Hfit.
    apply set_stores; [| done]. cbn.
    rewrite (reachable_from_ttl_config cfg self t Hreach).
    by rewrite <- Httl, init_ttl_config.
Qed.

Lemma ttl_defaults_and_overrides_witness :
  let overrides : gmap CacheDataType Z := {[ MATCHUP_DATA := 300 ]} in
  let self := after_all [CallGet 7 "a" ROSTER_DATA] (__init__ (Some overrides)) in
  _ttl_config (__init__ (Some overrides)) !! MATCHUP_DATA = Some 300 /\
  _ttl_config (__init__ (Some overrides)) !! ROSTER_DATA = Some 900 /\
  _cache (snd (set 10 "m:1" (VInt 1) MATCHUP_DATA None self)) !! "m:1" =
    Some {| data := VInt 1; expires_at := 10 + inject_Z 300;
            created_at := 10; data_type := MATCHUP_DATA |}.
Proof.
  intros overrides self.
  destruct ttl_defaults_and_overrides as (_ & _ & Hover & Hset).
  split; [exact (Hover overrides MATCHUP_DATA) |].
  split; [exact (Hover overrides ROSTER_DATA) |].
  rewrite (Hset (Some overrides) self 10%Q "m:1"%string (VInt 1) MATCHUP_DATA 300).
  - reflexivity.
  - eexists. reflexivity.
  - reflexivity.
  - apply fits_float_small. reflexivity.
Defined.

(** C7. The result of [get] and the manager it leaves do not depend on the
    category argument, whatever the category of the stored entry. *)
Theorem get_ignores_category
    (now : Q) (key : string) (c1 c2 : CacheDataType) (self : CacheManager) :
  get now key c1 self = get now key c2 self.
Proof. reflexivity. Qed.

(** C8. [invalidate_by_pattern] removes exactly the keys that contain the
    pattern as a literal substring and no other key, returns the number of
    keys removed, and adds that number to [invalidations]. *)
Theorem invalidate_by_pattern_removes_matching_only
    (pattern : string) (self : CacheManager) :
  exists (n : nat) (self' : CacheManager),
    invalidate_by_pattern pattern self = (Ok (Z.of_nat n), self') /\
    (forall k, is_substring pattern k -> _cache self' !! k = None) /\
    (forall k, ~ is_substring pattern k -> _cache self' !! k = _cache self !! k) /\
    (size (_cache self') + n = size (_cache self))%nat /\
    _stats self' =
      {| hits := hits (_stats self);
         misses := misses (_stats self);
         evictions := evictions (_stats self);
         invalidations := invalidations (_stats self) + Z.of_nat n |} /\
    _ttl_config self' = _ttl_config self.
Proof.
  rewrite invalidate_by_pattern_sweeps. cbn zeta.
  eexists. eexists. split; [reflexivity |]. cbn [_cache _stats _ttl_config].
  split; [| split; [| split; [| done]]].
  - intros k Hsub%str_contains_is_substring. by rewrite pattern_sweep_lookup, Hsub.
  - intros k Hsub. rewrite pattern_sweep_lookup.
    destruct (Py.str_contains pattern k) eqn:Hp; [| done].
    by apply str_contains_is_substring in Hp.
  - apply size_without_keys; [apply pattern_keys_NoDup |].
    by intros k [Hk _]%pattern_keys_elem.
Qed.

Lemma invalidate_by_pattern_removes_matching_only_witness :
  let self :=
    after_all [CallSet 0 "xabcx" (VInt 1) ROSTER_DATA None;
               CallSet 0 "ab" (VInt 2) PLAYER_DATA None] (__init__ None) in
  exists (n : nat) (self' : CacheManager),
    invalidate_by_pattern "abc" self = (Ok (Z.of_nat n), self') /\
    _cache self' !! "xabcx" = None /\
    _cache self' !! "ab" = _cache self !! "ab".
Proof.
  intros self.
  destruct (invalidate_by_pattern_removes_matching_only "abc" self)
    as (n & self' & Hrun & Hmatch & Hother & _).
  exists n, self'. split; [exact Hrun |]. split.
  - apply Hmatch. exists "x"%string, "x"%string. reflexivity.
  - apply Hother. intros Hsub%str_contains_is_substring. discriminate.
Defined.

(** C9. [invalidate] of a key that is in the store removes it, adds one to
    [invalidations] and returns true, and a [get] of the key that follows is a
    miss; of a key that is not in the store it returns false and leaves the
    store and the four counters as they are. *)
Theorem invalidate_present_and_absent (key : string) (self : CacheManager) :
  (is_Some (_cache self !! key) ->
   exists self',
     invalidate key self = (Ok true, self') /\
     _cache self' = delete key (_cache self) /\
     _stats self' =
       {| hits := hits (_stats self);
          misses := misses (_stats self);
          evictions := evictions (_stats self);
          invalidations := invalidations (_stats self) + 1 |} /\
     forall now t,
       get now key t self' =
         (Ok VNone,
          with_stats self'
            {| hits := hits (_stats self');
               misses := misses (_stats self') + 1;
               evictions := evictions (_stats self');
               invalidations := invalidations (_stats self') |})) /\
  (_cache self !! key = None -> invalidate key self = (Ok false, self)).
Proof.
  split.
  - intros Hk. rewrite (invalidate_present _ _ Hk).
    eexists. split; [reflexivity |]. split; [done |]. split; [done |].
    intros now t. apply get_absent. cbn. apply lookup_delete_eq.
  - apply invalidate_absent.
Qed.

Lemma invalidate_present_and_absent_witness :
  let self := after_all [CallSet 0 "a" (VInt 1) ROSTER_DATA None] (__init__ None) in
  (exists self', invalidate "a" self = (Ok true, self') /\
                 fst (get 1 "a" ROSTER_DATA self') = Ok VNone) /\
  invalidate "b" self = (Ok false, self).
Proof.
  intros self. split.
  - destruct (proj1 (invalidate_present_and_absent "a" self)) as (self' & Hrun & _ & _ & Hget).
    + eexists. reflexivity.
    + exists self'. split; [exact Hrun |]. by rewrite Hget.
  - apply (proj2 (invalidate_present_and_absent "b" self)). reflexivity.
Defined.

(** C10. [set] changes the entry at its key only: the entry under every other
    key is as it was, none of the four counters changes, and when the key was
    already in the store the number of entries is unchanged. *)
Theorem set_touches_only_its_key
    (now : Q) (key : string) (payload : value) (t : CacheDataType)
    (ttl_override : option Z) (self : CacheManager) :
  let self' := snd (set now key payload t ttl_override self) in
  (forall k, k <> key -> _cache self' !! k = _cache self !! k) /\
  _stats self' = _stats self /\
  _ttl_config self' = _ttl_config self /\
  (is_Some (_cache self !! key) -> size (_cache self') = size (_cache self)) /\
  (fst (set now key payload t ttl_override self) = Ok tt ->
   exists entry,
     _cache self' !! key = Some entry /\
     data entry = payload /\ data_type entry = t /\ created_at entry = now).
Proof.
  intros self'. subst self'.
  destruct (set_cases now key payload t ttl_override self) as [[e ->]|[ttl [_ [_ ->]]]];
    cbn [fst snd].
  - repeat split; try done.
  - cbn [with_cache _cache _stats _ttl_config]. repeat split; try done.
    + intros k Hne. by rewrite lookup_insert_ne.
    + intros Hk. by rewrite map_size_insert_Some.
    + intros _. eexists. split; [apply lookup_insert_eq | done].
Qed.

Lemma set_touches_only_its_key_witness :
  let self := after_all [CallSet 0 "p1" (VStr "A") PLAYER_DATA None;
                         CallSet 0 "p2" (VStr "C") PLAYER_DATA None] (__init__ None) in
  let self' := snd (set 1 "p1" (VStr "B") PLAYER_DATA None self) in
  _cache self' !! "p2" = _cache self !! "p2" /\
  _stats self' = _stats self /\
  size (_cache self') = size (_cache self).
Proof.
  intros self self'.
  destruct (set_touches_only_its_key 1 "p1" (VStr "B") PLAYER_DATA None self)
    as (Hother & Hstats & _ & Hsize & _).
  split; [| split].
  - apply Hother. discriminate.
  - exact Hstats.
  - apply Hsize. eexists. reflexivity.
Defined.

(** * Further properties of the cache manager *)

(** ** Sizes *)

Lemma scan_sweep_size (P : string * CacheEntry -> Prop) `{!forall x, Decision (P x)}
    (c : gmap string CacheEntry) :
  (size (without_keys (filter P (map_to_list c)).*1 c)
   + length (filter P (map_to_list c)).*1 = size c)%nat.
Proof.
  apply size_without_keys; [apply scan_keys_NoDup |].
  intros k [e [He _]]%scan_keys_elem. by exists e.
Qed.

Lemma pattern_sweep_size (pattern : string) (c : gmap string CacheEntry) :
  let ks := filter (fun key => Py.str_contains pattern key = true) (Py.keys c) in
  (size (without_keys ks c) + length ks = size c)%nat.
Proof.
  apply size_without_keys; [apply pattern_keys_NoDup |].
  by intros k [Hk _]%pattern_keys_elem.
Qed.

Lemma size_delete_present (k : string) (c : gmap string CacheEntry) :
  is_Some (c !! k) -> Z.of_nat (size (delete k c)) = Z.of_nat (size c) - 1.
Proof.
  intros Hk. rewrite map_size_delete_Some by done.
  assert (size c ≠ 0%nat) by (by apply (map_size_ne_0_lookup_2 c k)). lia.
Qed.

Lemma size_insert_le (k : string) (e : CacheEntry) (c : gmap string CacheEntry) :
  Z.of_nat (size (<[k := e]> c)) <= Z.of_nat (size c) + 1.
Proof. rewrite map_size_insert. destruct (c !! k); simpl; lia. Qed.

Lemma count_calls_snoc (p : call -> bool) (cs : list call) (c : call) :
  count_calls p (cs ++ [c]) = count_calls p cs + (if p c then 1 else 0).
Proof.
  unfold count_calls. rewrite filter_app, length_app, Nat2Z.inj_add. f_equal.
  rewrite filter_cons, filter_nil. destruct (p c); by case_decide.
Qed.

(** ** What every call accounts for *)

Ltac accounts_by_computation := cbn; split; lia.

Lemma after_accounts (c : call) (self : CacheManager) :
  hits (_stats (after c self)) + misses (_stats (after c self)) =
    hits (_stats self) + misses (_stats self) + (if is_get c then 1 else 0) /\
  Z.of_nat (size (_cache (after c self)))
    + evictions (_stats (after c self)) + invalidations (_stats (after c self))
  <= Z.of_nat (size (_cache self))
     + evictions (_stats self) + invalidations (_stats self)
     + (if is_set c then 1 else 0).
Proof.
  destruct c as [now key t|now key payload t ovr|key|pattern|t| |now| |now clock|b|now clock];
    cbn [after is_get is_set].
  - destruct (_cache self !! key) as [entry|] eqn:Hk.
    + destruct (Qlt_le_dec (expires_at entry) now) as [Hexp|Hlive].
      * rewrite (get_expired _ _ _ _ _ Hk Hexp). cbn.
        rewrite size_delete_present by (by eexists). split; lia.
      * rewrite (get_live _ _ _ _ _ Hk Hlive). accounts_by_computation.
    + rewrite (get_absent _ _ _ _ Hk). accounts_by_computation.
  - destruct (set_cases now key payload t ovr self) as [[e ->]|[ttl [_ [_ ->]]]].
    + accounts_by_computation.
    + cbn. pose proof (size_insert_le key (entry_of now payload t ttl) (_cache self)) as Hsz.
      unfold entry_of in Hsz. split; lia.
  - destruct (_cache self !! key) as [entry|] eqn:Hk.
    + rewrite (invalidate_present key self) by (by eexists). cbn.
      rewrite size_delete_present by (by eexists). split; lia.
    + rewrite (invalidate_absent _ _ Hk). accounts_by_computation.
  - rewrite invalidate_by_pattern_sweeps. cbn.
    pose proof (pattern_sweep_size pattern (_cache self)) as Hsz. cbn zeta in Hsz.
    split; lia.
  - rewrite invalidate_by_type_sweeps. cbn.
    pose proof (scan_sweep_size (fun kv => has_data_type t (kv.2) = true) (_cache self)).
    split; lia.
  - rewrite clear_empties. cbn. rewrite map_size_empty. split; lia.
  - rewrite cleanup_expired_sweeps. cbn.
    pose proof (scan_sweep_size (fun kv => Qle_bool (expires_at (kv.2)) now = true)
                  (_cache self)).
    split; lia.
  - rewrite get_stats_state. accounts_by_computation.
  - destruct (get_cache_info_returns now clock self) as [info ->]. accounts_by_computation.
  - accounts_by_computation.
  - rewrite log_performance_summary_state. accounts_by_computation.
Qed.

(** What a call leaves in the store was there before, or the call is the
    [set] that stored it. *)
Lemma after_entry_origin (c : call) (self : CacheManager) (k : string) (e : CacheEntry) :
  _cache (after c self) !! k = Some e ->
  _cache self !! k = Some e \/
  exists now payload t ttl_override ttl,
    c = CallSet now k payload t ttl_override /\
    from_option Some (_ttl_config self !! t) ttl_override = Some ttl /\
    e = entry_of now payload t ttl.
Proof.
  destruct c as [now key t|now key payload t ovr|key|pattern|t| |now| |now clock|b|now clock];
    cbn [after].
  - destruct (_cache self !! key) as [entry|] eqn:Hk.
    + destruct (Qlt_le_dec (expires_at entry) now) as [Hexp|Hlive].
      * rewrite (get_expired _ _ _ _ _ Hk Hexp). cbn.
        intros [_ He]%lookup_delete_Some. by left.
      * rewrite (get_live _ _ _ _ _ Hk Hlive). by left.
    + rewrite (get_absent _ _ _ _ Hk). by left.
  - destruct (set_cases now key payload t ovr self) as [[e' ->]|[ttl [Httl [_ ->]]]].
    + by left.
    + cbn. intros [[<- <-]|[_ He]]%lookup_insert_Some.
      * right. by exists now, payload, t, ovr, ttl.
      * by left.
  - destruct (_cache self !! key) as [entry|] eqn:Hk.
    + rewrite (invalidate_present key self) by (by eexists). cbn.
      intros [_ He]%lookup_delete_Some. by left.
    + rewrite (invalidate_absent _ _ Hk). by left.
  - rewrite invalidate_by_pattern_sweeps. cbn. rewrite lookup_without_keys.
    destruct (decide _); [done | by left].
  - rewrite invalidate_by_type_sweeps. cbn. rewrite lookup_without_keys.
    destruct (decide _); [done | by left].
  - rewrite clear_empties. cbn. by rewrite lookup_empty.
  - rewrite cleanup_expired_sweeps. cbn. rewrite lookup_without_keys.
    destruct (decide _); [done | by left].
  - rewrite get_stats_state. by left.
  - destruct (get_cache_info_returns now clock self) as [info ->]. by left.
  - by left.
  - rewrite log_performance_summary_state. by left.
Qed.

(** An entry found under a key after calls that do not [set] the key was
    under it before them. *)
Lemma after_all_entry_kept (cs : list call) (self : CacheManager) (k : string)
    (e : CacheEntry) :
  forallb (fun c => negb (sets_key k c)) cs = true ->
  _cache (after_all cs self) !! k = Some e ->
  _cache self !! k = Some e.
Proof.
  intros Hcs. induction cs as [|c cs IH] using rev_ind; [done |].
  rewrite forallb_app in Hcs. apply andb_true_iff in Hcs as [Hcs Hc].
  simpl in Hc. rewrite andb_true_r in Hc. apply negb_true_iff in Hc.
  rewrite after_all_snoc. intros [Hbefore|Hset]%after_entry_origin.
  - by apply IH.
  - destruct Hset as (now & payload & t & ovr & ttl & -> & _).
    cbn in Hc. by rewrite bool_decide_eq_true_2 in Hc.
Qed.

(** ** Histories *)

(** X1. The two request counters together count the calls of [get]: after
    any history on a new manager, [hits + misses] is the number of [get]
    calls of the history. *)
Theorem requests_are_gets (ttl_config : option (gmap CacheDataType Z)) (cs : list call) :
  let self := after_all cs (__init__ ttl_config) in
  hits (_stats self) + misses (_stats self) = count_calls is_get cs.
Proof.
  induction cs as [|c cs IH] using rev_ind; [done |].
  cbn zeta in *. rewrite after_all_snoc, count_calls_snoc.
  destruct (after_accounts c (after_all cs (__init__ ttl_config))) as [Hreq _]. lia.
Qed.

(** X2. Entries are only removed after they were stored: after any history on
    a new manager, the number of entries in the store plus [evictions] plus
    [invalidations] is at most the number of [set] calls of the history. *)
Theorem removals_bounded_by_sets (ttl_config : option (gmap CacheDataType Z))
    (cs : list call) :
  let self := after_all cs (__init__ ttl_config) in
  Z.of_nat (size (_cache self)) + evictions (_stats self) + invalidations (_stats self)
  <= count_calls is_set cs.
Proof.
  induction cs as [|c cs IH] using rev_ind; [done |].
  cbn zeta in *. rewrite after_all_snoc, count_calls_snoc.
  destruct (after_accounts c (after_all cs (__init__ ttl_config))) as [_ Hrem]. lia.
Qed.

(** X3. No call lowers a counter or changes the time-to-live table: over any
    history, from any manager, each of the four counters ends at least where
    it started and [_ttl_config] ends as it started. *)
Theorem counters_only_grow (cs : list call) (self : CacheManager) :
  let self' := after_all cs self in
  hits (_stats self) <= hits (_stats self') /\
  misses (_stats self) <= misses (_stats self') /\
  evictions (_stats self) <= evictions (_stats self') /\
  invalidations (_stats self) <= invalidations (_stats self') /\
  _ttl_config self' = _ttl_config self.
Proof.
  induction cs as [|c cs IH] using rev_ind; [done |].
  cbn zeta in *. rewrite after_all_snoc.
  destruct (after_keeps c (after_all cs self)) as [Httl Hh Hm He Hi _].
  destruct IH as (? & ? & ? & ? & IHttl).
  rewrite Httl, IHttl. repeat split; lia.
Qed.

(** X4. A key that no call of the history has [set] is a miss: on a new
    manager, after any history without a [set] of the key, [get] returns
    absent, adds one to [misses] and changes nothing else. *)
Theorem never_set_key_misses (ttl_config : option (gmap CacheDataType Z))
    (cs : list call) (now : Q) (key : string) (t : CacheDataType) :
  forallb (fun c => negb (sets_key key c)) cs = true ->
  let self := after_all cs (__init__ ttl_config) in
  get now key t self =
    (Ok VNone,
     with_stats self
       {| hits := hits (_stats self);
          misses := misses (_stats self) + 1;
          evictions := evictions (_stats self);
          invalidations := invalidations (_stats self) |}).
Proof.
  intros Hcs self. apply get_absent. by apply after_all_absent.
Qed.

Lemma never_set_key_misses_witness :
  fst (get 9 "b" PLAYER_DATA
         (after_all [CallSet 0 "a" (VInt 1) ROSTER_DATA None; CallInvalidate "b"]
            (__init__ None))) = Ok VNone.
Proof.
  rewrite (never_set_key_misses None
             [CallSet 0 "a" (VInt 1) ROSTER_DATA None; CallInvalidate "b"] 9 "b" PLAYER_DATA).
  - reflexivity.
  - reflexivity.
Defined.

(** X5. The store holds only what [set] put there: after any history on a
    new manager, every entry in the store is the one built by a [set] call of
    the history for that key, with that call's payload, category and clock
    reading, expiring at the reading plus the override or else the configured
    time-to-live of the category. *)
Theorem stored_entries_come_from_set (ttl_config : option (gmap CacheDataType Z))
    (cs : list call) (k : string) (e : CacheEntry) :
  _cache (after_all cs (__init__ ttl_config)) !! k = Some e ->
  exists now payload t ttl_override ttl,
    CallSet now k payload t ttl_override ∈ cs /\
    from_option Some (_ttl_config (__init__ ttl_config) !! t) ttl_override = Some ttl /\
    e = {| data := payload; expires_at := (now + inject_Z ttl)%Q;
           created_at := now; data_type := t |}.
Proof.
  induction cs as [|c cs IH] using rev_ind; [done |].
  rewrite after_all_snoc.
  intros [Hold|(now & payload & t & ovr & ttl & -> & Httl & ->)]%after_entry_origin.
  - destruct (IH Hold) as (now & payload & t & ovr & ttl & Hin & Httl & ->).
    exists now, payload, t, ovr, ttl. split; [| done].
    apply elem_of_app. by left.
  - exists now, payload, t, ovr, ttl. split; [| split; [| done]].
    + apply elem_of_app. right. by left.
    + by rewrite after_all_ttl_config in Httl.
Qed.

Lemma stored_entries_come_from_set_witness :
  exists now payload t ttl_override ttl,
    CallSet now "a" payload t ttl_override
      ∈ [CallSet 0 "a" (VInt 1) ROSTER_DATA None; CallGet 1 "a" ROSTER_DATA] /\
    from_option Some (_ttl_config (__init__ None) !! t) ttl_override = Some ttl /\
    entry_of 0 (VInt 1) ROSTER_DATA 900 =
      {| data := payload; expires_at := (now + inject_Z ttl)%Q;
         created_at := now; data_type := t |}.
Proof.
  apply (stored_entries_come_from_set None
           [CallSet 0 "a" (VInt 1) ROSTER_DATA None; CallGet 1 "a" ROSTER_DATA] "a").
  reflexivity.
Defined.

(** ** Invalidation by category and [clear] *)

(** X6. [invalidate_by_type] removes exactly the entries whose stored category
    is the given one, leaves every other entry as it is, returns the number of
    entries removed and adds it to [invalidations]. *)
Theorem invalidate_by_type_removes_type_only (t : CacheDataType) (self : CacheManager) :
  exists (n : nat) (self' : CacheManager),
    invalidate_by_type t self = (Ok (Z.of_nat n), self') /\
    (forall k e, _cache self !! k = Some e -> data_type e = t -> _cache self' !! k = None) /\
    (forall k e, _cache self !! k = Some e -> data_type e <> t ->
                 _cache self' !! k = Some e) /\
    (forall k, _cache self !! k = None -> _cache self' !! k = None) /\
    (size (_cache self') + n = size (_cache self))%nat /\
    _stats self' =
      {| hits := hits (_stats self);
         misses := misses (_stats self);
         evictions := evictions (_stats self);
         invalidations := invalidations (_stats self) + Z.of_nat n |} /\
    _ttl_config self' = _ttl_config self.
Proof.
  rewrite invalidate_by_type_sweeps. cbn zeta.
  eexists. eexists. split; [reflexivity |]. cbn [_cache _stats _ttl_config].
  split; [| split; [| split; [| split; [| done]]]].
  - intros k e Hk Ht. rewrite scan_sweep_lookup, Hk.
    rewrite decide_True; [done |]. cbn. unfold has_data_type. by apply bool_decide_eq_true.
  - intros k e Hk Ht. rewrite scan_sweep_lookup, Hk.
    rewrite decide_False; [done |]. cbn. unfold has_data_type.
    by rewrite bool_decide_eq_true.
  - intros k Hk. by apply without_keys_absent.
  - apply scan_sweep_size.
Qed.

Lemma invalidate_by_type_removes_type_only_witness :
  let self :=
    after_all [CallSet 0 "a" (VInt 1) ROSTER_DATA None;
               CallSet 0 "b" (VInt 2) PLAYER_DATA None] (__init__ None) in
  exists (n : nat) (self' : CacheManager),
    invalidate_by_type ROSTER_DATA self = (Ok (Z.of_nat n), self') /\
    _cache self' !! "a" = None /\
    _cache self' !! "b" = _cache self !! "b".
Proof.
  intros self.
  destruct (invalidate_by_type_removes_type_only ROSTER_DATA self)
    as (n & self' & Hrun & Hsame & Hother & _).
  exists n, self'. split; [exact Hrun |]. split.
  - apply (Hsame "a" (entry_of 0 (VInt 1) ROSTER_DATA 900)); reflexivity.
  - rewrite (Hother "b" (entry_of 0 (VInt 2) PLAYER_DATA 3600));
      [reflexivity | reflexivity | discriminate].
Defined.

(** X7. [clear] empties the store, returns the number of entries it held and
    adds it to [invalidations]; afterwards every [get] is a miss and, on a
    manager made by the constructor, [get_stats] reports no entries. *)
Theorem clear_then_everything_misses (self : CacheManager) :
  reachable self ->
  exists self',
    clear self = (Ok (Z.of_nat (size (_cache self))), self') /\
    _cache self' = ∅ /\
    _stats self' =
      {| hits := hits (_stats self);
         misses := misses (_stats self);
         evictions := evictions (_stats self);
         invalidations := invalidations (_stats self) + Z.of_nat (size (_cache self)) |} /\
    (forall now key t,
       get now key t self' =
         (Ok VNone,
          with_stats self'
            {| hits := hits (_stats self');
               misses := misses (_stats self') + 1;
               evictions := evictions (_stats self');
               invalidations := invalidations (_stats self') |})) /\
    exists d, get_stats self' = (Ok d, self') /\ StatsDict.total_entries d = 0.
Proof.
  intros Hreach. pose proof (reachable_counters_nonneg self Hreach) as (Hh & Hm & He & Hi).
  rewrite clear_empties. eexists. split; [reflexivity |].
  split; [done |]. split; [done |]. split.
  - intros now key t. apply get_absent. cbn. apply lookup_empty.
  - rewrite get_stats_value; [| unfold counters_nonneg; cbn; lia].
    eexists. split; [reflexivity |]. cbn. by rewrite map_size_empty.
Qed.

Lemma clear_then_everything_misses_witness :
  let self :=
    after_all [CallSet 0 "a" (VInt 1) ROSTER_DATA None;
               CallSet 0 "b" (VInt 2) PLAYER_DATA None] (__init__ None) in
  exists self', clear self = (Ok 2, self') /\ fst (get 1 "a" ROSTER_DATA self') = Ok VNone.
Proof.
  intros self.
  destruct (clear_then_everything_misses self) as (self' & Hrun & _ & _ & Hget & _).
  - exists None. eexists. reflexivity.
  - exists self'. split; [exact Hrun |]. by rewrite Hget.
Defined.

(** X8. [invalidate_by_pattern] with the empty pattern is [clear]: every key
    contains the empty string, so both calls return the same number and leave
    the same manager. *)
Theorem empty_pattern_is_clear (self : CacheManager) :
  invalidate_by_pattern "" self = clear self.
Proof.
  rewrite invalidate_by_pattern_sweeps, clear_empties. cbn zeta.
  set (ks := filter _ _).
  assert (without_keys ks (_cache self) = ∅) as Hempty.
  { apply map_eq. intros k. subst ks. rewrite pattern_sweep_lookup, lookup_empty.
    rewrite (proj2 (str_contains_is_substring "" k)); [done |].
    by exists ""%string, k. }
  pose proof (pattern_sweep_size "" (_cache self)) as Hsize. cbn zeta in Hsize.
  fold ks in Hsize. rewrite Hempty, map_size_empty in Hsize. cbn in Hsize.
  by rewrite Hempty, Hsize.
Qed.

(** ** Expiry on read and the sweep *)

(** X9. A negative time-to-live expires at once: after [set] with a negative
    override, a [get] of the key at the same clock reading or a later one
    returns absent, removes the entry and adds one to [evictions] and one to
    [misses]. *)
Theorem negative_ttl_expires_at_once
    (now_set now_get : Q) (key : string) (v : value)
    (cat any_category : CacheDataType) (ttl : Z) (self : CacheManager) :
  ttl < 0 ->
  fits_float ttl ->
  (now_set <= now_get)%Q ->
  exists self1,
    set now_set key v cat (Some ttl) self = (Ok tt, self1) /\
    get now_get key any_category self1 =
      (Ok VNone,
       {| _cache := delete key (_cache self);
          _ttl_config := _ttl_config self;
          _stats :=
            {| hits := hits (_stats self);
               misses := misses (_stats self) + 1;
               evictions := evictions (_stats self) + 1;
               invalidations := invalidations (_stats self) |} |}).
Proof.
  intros Hneg Hfit Hlater.
  rewrite (set_stores now_set key v cat (Some ttl) self ttl); [| done | done].
  eexists. split; [reflexivity |].
  erewrite get_expired; [| cbn; apply lookup_insert_eq |].
  - cbn. by rewrite delete_insert_eq.
  - cbn. assert (inject_Z ttl < 0)%Q
      by (change 0%Q with (inject_Z 0); by rewrite <- Zlt_Qlt).
    lra.
Qed.

Lemma negative_ttl_expires_at_once_witness :
  exists self1,
    set 100 "k" (VStr "v") PLAYER_DATA (Some (-1)) (__init__ None) = (Ok tt, self1) /\
    fst (get 100 "k" PLAYER_DATA self1) = Ok VNone.
Proof.
  destruct (negative_ttl_expires_at_once 100 100 "k" (VStr "v") PLAYER_DATA PLAYER_DATA (-1)
              (__init__ None)) as (self1 & Hset & Hget).
  - reflexivity.
  - apply fits_float_small. reflexivity.
  - discriminate.
  - exists self1. split; [exact Hset |]. by rewrite Hget.
Defined.

(** X10. A zero time-to-live expires as soon as the clock advances. After
    [set(key, v, cat, ttl_override=0)] and any calls that do not [set] the key
    again, a [get] of the key at a clock reading later than the one of the
    [set] returns absent, leaves the key out of the store and adds one to
    [misses]; it adds one to [evictions] exactly when the entry was still
    stored (no [invalidate], sweep or earlier read had removed it). Every
    later [get] of the key, after any calls that do not [set] it, returns
    absent and adds one to [misses] only. *)
Theorem zero_ttl_expires_once_clock_advances
    (now_set now_get : Q) (key : string) (v : value)
    (cat any_category : CacheDataType) (cs : list call) (self : CacheManager) :
  forallb (fun c => negb (sets_key key c)) cs = true ->
  (now_set < now_get)%Q ->
  let self1 := snd (set now_set key v cat (Some 0) self) in
  let self2 := after_all cs self1 in
  let self3 := snd (get now_get key any_category self2) in
  fst (set now_set key v cat (Some 0) self) = Ok tt /\
  fst (get now_get key any_category self2) = Ok VNone /\
  _cache self3 = delete key (_cache self2) /\
  _stats self3 =
    {| hits := hits (_stats self2);
       misses := misses (_stats self2) + 1;
       evictions :=
         evictions (_stats self2)
         + match _cache self2 !! key with Some _ => 1 | None => 0 end;
       invalidations := invalidations (_stats self2) |} /\
  forall (cs' : list call) (now_later : Q) (t : CacheDataType),
    forallb (fun c => negb (sets_key key c)) cs' = true ->
    let self4 := after_all cs' self3 in
    get now_later key t self4 =
      (Ok VNone,
       with_stats self4
         {| hits := hits (_stats self4);
            misses := misses (_stats self4) + 1;
            evictions := evictions (_stats self4);
            invalidations := invalidations (_stats self4) |}).
Proof.
  intros Hcs Hlater self1 self2 self3.
  assert (set now_set key v cat (Some 0) self =
            (Ok tt, with_cache self (<[key := entry_of now_set v cat 0]> (_cache self))))
    as Hset by (apply set_stores; [done | by apply fits_float_small]).
  assert (_cache self3 = delete key (_cache self2) /\
          fst (get now_get key any_category self2) = Ok VNone /\
          _stats self3 =
            {| hits := hits (_stats self2);
               misses := misses (_stats self2) + 1;
               evictions :=
                 evictions (_stats self2)
                 + match _cache self2 !! key with Some _ => 1 | None => 0 end;
               invalidations := invalidations (_stats self2) |})
    as (Hcache & Hget & Hstats).
  { subst self3. destruct (_cache self2 !! key) as [entry|] eqn:Hk.
    - assert (entry = entry_of now_set v cat 0) as ->.
      { subst self2 self1. rewrite Hset in Hk. cbn [snd] in Hk.
        apply after_all_entry_kept in Hk; [| done].
        cbn in Hk. rewrite lookup_insert_eq in Hk. congruence. }
      rewrite (get_expired now_get key any_category self2 _ Hk)
        by (cbn; change (inject_Z 0) with 0%Q; lra).
      done.
    - rewrite (get_absent now_get key any_category self2 Hk). cbn.
      rewrite delete_id by done. by rewrite Z.add_0_r. }
  split; [by rewrite Hset |]. split; [exact Hget |].
  split; [exact Hcache |]. split; [exact Hstats |].
  intros cs' now_later t Hcs'.
  apply get_absent. apply after_all_absent; [done |].
  rewrite Hcache. apply lookup_delete_eq.
Qed.

Lemma zero_ttl_expires_once_clock_advances_witness :
  let self1 := snd (set 100 "k" (VStr "v") PLAYER_DATA (Some 0) (__init__ None)) in
  let self2 := after_all [CallGet 100 "k" PLAYER_DATA; CallGetStats] self1 in
  fst (get 101 "k" MATCHUP_DATA self2) = Ok VNone /\
  _stats (snd (get 101 "k" MATCHUP_DATA self2)) =
    {| hits := 1; misses := 1; evictions := 1; invalidations := 0 |}.
Proof.
  intros self1 self2.
  destruct (zero_ttl_expires_once_clock_advances 100 101 "k" (VStr "v") PLAYER_DATA
              MATCHUP_DATA [CallGet 100 "k" PLAYER_DATA; CallGetStats] (__init__ None))
    as (_ & Hget & _ & Hstats & _).
  - reflexivity.
  - reflexivity.
  - split; [exact Hget | exact Hstats].
Defined.

(** X11. [get] and [cleanup_expired] disagree on an entry whose expiration is
    exactly the clock reading: [get] at that reading returns its payload and
    keeps it, [cleanup_expired] at that reading removes it. *)
Theorem entry_at_its_expiry_reading
    (now : Q) (key : string) (t : CacheDataType) (self : CacheManager) (entry : CacheEntry) :
  _cache self !! key = Some entry ->
  (expires_at entry == now)%Q ->
  fst (get now key t self) = Ok (data entry) /\
  _cache (snd (get now key t self)) !! key = Some entry /\
  evictions (_stats (snd (get now key t self))) = evictions (_stats self) /\
  _cache (snd (cleanup_expired now self)) !! key = None.
Proof.
  intros Hk Heq.
  rewrite (get_live now key t self entry Hk) by lra.
  split; [done |]. split; [done |]. split; [done |].
  rewrite cleanup_expired_sweeps. cbn. rewrite scan_sweep_lookup, Hk.
  rewrite decide_True; [done |]. cbn. apply Qle_bool_iff. lra.
Qed.

Lemma entry_at_its_expiry_reading_witness :
  let self := after_all [CallSet 0 "k" (VInt 1) ROSTER_DATA (Some 10)] (__init__ None) in
  fst (get 10 "k" ROSTER_DATA self) = Ok (VInt 1) /\
  _cache (snd (cleanup_expired 10 self)) !! "k" = None.
Proof.
  intros self.
  destruct (entry_at_its_expiry_reading 10 "k" ROSTER_DATA self
              (entry_of 0 (VInt 1) ROSTER_DATA 10)) as (Hget & _ & _ & Hsweep).
  - reflexivity.
  - reflexivity.
  - split; [exact Hget | exact Hsweep].
Defined.

(** X12. After [cleanup_expired] at a clock reading, no [get] at that reading
    or an earlier one evicts: it leaves the store as it is, and for a key that
    is still in the store it returns the payload. *)
Theorem no_eviction_after_sweep
    (now now' : Q) (key : string) (t : CacheDataType) (self : CacheManager) :
  (now' <= now)%Q ->
  let swept := snd (cleanup_expired now self) in
  _cache (snd (get now' key t swept)) = _cache swept /\
  evictions (_stats (snd (get now' key t swept))) = evictions (_stats swept) /\
  forall entry, _cache swept !! key = Some entry ->
                fst (get now' key t swept) = Ok (data entry).
Proof.
  intros Hle swept.
  destruct (_cache swept !! key) as [entry|] eqn:Hk.
  - assert (now' <= expires_at entry)%Q as Hlive.
    { subst swept. rewrite cleanup_expired_sweeps in Hk. cbn in Hk.
      rewrite scan_sweep_lookup in Hk.
      destruct (_cache self !! key) as [e|]; [| done].
      destruct (decide _) as [|Hnot]; [done |]. injection Hk as ->.
      cbn in Hnot. rewrite Qle_bool_iff in Hnot. apply Qnot_le_lt in Hnot. lra. }
    rewrite (get_live now' key t swept entry Hk Hlive).
    split; [done |]. split; [done |]. by intros ? [= <-].
  - rewrite (get_absent now' key t swept Hk). split; [done |]. split; done.
Qed.

Lemma no_eviction_after_sweep_witness :
  let self :=
    after_all [CallSet 0 "old" (VInt 1) ROSTER_DATA (Some 10);
               CallSet 0 "new" (VInt 2) ROSTER_DATA (Some 100)] (__init__ None) in
  let swept := snd (cleanup_expired 50 self) in
  evictions (_stats (snd (get 50 "new" ROSTER_DATA swept))) = evictions (_stats swept) /\
  fst (get 50 "new" ROSTER_DATA swept) = Ok (VInt 2).
Proof.
  intros self swept.
  destruct (no_eviction_after_sweep 50 50 "new" ROSTER_DATA self) as (_ & Hev & Hget).
  - discriminate.
  - split; [exact Hev |].
    apply (Hget (entry_of 0 (VInt 2) ROSTER_DATA 100)). reflexivity.
Defined.

(** X13. A second [cleanup_expired], at the same clock reading or an earlier
    one, finds nothing: it returns 0 and leaves the manager as it is. *)
Theorem cleanup_expired_twice (now now' : Q) (self : CacheManager) :
  (now' <= now)%Q ->
  let swept := snd (cleanup_expired now self) in
  cleanup_expired now' swept = (Ok 0, swept).
Proof.
  intros Hle swept. rewrite (cleanup_expired_sweeps now' swept). cbn zeta.
  set (ks := (filter _ _).*1).
  assert (ks = []) as ->.
  { apply elem_of_nil_inv. intros k [e [Hk Hexp]]%scan_keys_elem.
    cbn in Hexp. apply Qle_bool_iff in Hexp.
    subst swept. rewrite cleanup_expired_sweeps in Hk. cbn in Hk.
    rewrite scan_sweep_lookup in Hk.
    destruct (_cache self !! k) as [e'|]; [| done].
    destruct (decide _) as [|Hnot]; [done |]. injection Hk as ->.
    cbn in Hnot. rewrite Qle_bool_iff in Hnot. apply Hnot. lra. }
  cbn. destruct swept as [c cfg [h m ev inv]]. unfold count_evictions. cbn.
  by rewrite Z.add_0_r.
Qed.

Lemma cleanup_expired_twice_witness :
  let self :=
    after_all [CallSet 0 "old" (VInt 1) ROSTER_DATA (Some 10);
               CallSet 0 "new" (VInt 2) ROSTER_DATA (Some 100)] (__init__ None) in
  fst (cleanup_expired 50 self) = Ok 1 /\
  fst (cleanup_expired 50 (snd (cleanup_expired 50 self))) = Ok 0.
Proof.
  intros self. split; [reflexivity |].
  rewrite (cleanup_expired_twice 50 50 self); [reflexivity | discriminate].
Defined.

(** ** Frames *)

(** X14. [get] touches its own key only, and only to evict it: the entries
    under all other keys, [invalidations] and the time-to-live table are as
    they were, the two request counters grow by one together, and either the
    store and [evictions] are unchanged, or the key held an entry that had
    expired before the reading, which is removed, with absent returned and one
    more eviction. *)
Theorem get_touches_only_its_key
    (now : Q) (key : string) (t : CacheDataType) (self : CacheManager) :
  let self' := snd (get now key t self) in
  (forall k, k <> key -> _cache self' !! k = _cache self !! k) /\
  invalidations (_stats self') = invalidations (_stats self) /\
  _ttl_config self' = _ttl_config self /\
  hits (_stats self') + misses (_stats self') =
    hits (_stats self) + misses (_stats self) + 1 /\
  ((_cache self' = _cache self /\ evictions (_stats self') = evictions (_stats self)) \/
   (exists entry,
      _cache self !! key = Some entry /\ (expires_at entry < now)%Q /\
      _cache self' = delete key (_cache self) /\
      evictions (_stats self') = evictions (_stats self) + 1 /\
      fst (get now key t self) = Ok VNone)).
Proof.
  cbn zeta. destruct (_cache self !! key) as [entry|] eqn:Hk.
  - destruct (Qlt_le_dec (expires_at entry) now) as [Hexp|Hlive].
    + rewrite (get_expired _ _ _ _ _ Hk Hexp). cbn.
      split; [intros k Hne; by rewrite lookup_delete_ne |].
      split; [done |]. split; [done |]. split; [lia |].
      right. by exists entry.
    + rewrite (get_live _ _ _ _ _ Hk Hlive). cbn.
      split; [done |]. split; [done |]. split; [done |]. split; [lia |]. by left.
  - rewrite (get_absent _ _ _ _ Hk). cbn.
    split; [done |]. split; [done |]. split; [done |]. split; [lia |]. by left.
Qed.

Lemma get_touches_only_its_key_witness :
  let self :=
    after_all [CallSet 0 "old" (VInt 1) ROSTER_DATA (Some 10);
               CallSet 0 "new" (VInt 2) ROSTER_DATA (Some 100)] (__init__ None) in
  _cache (snd (get 50 "old" ROSTER_DATA self)) !! "new" = _cache self !! "new".
Proof.
  intros self.
  destruct (get_touches_only_its_key 50 "old" ROSTER_DATA self) as (Hother & _).
  apply Hother. discriminate.
Defined.

(** X15. On a manager made by the constructor, [set] raises exactly when the
    time-to-live it uses (the override, or else the configured one of the
    category, which is always there) does not fit a float; the exception is
    then [OverflowError] and the manager is left as it was. *)
Theorem set_raises_only_on_overflow
    (now : Q) (key : string) (payload : value) (t : CacheDataType)
    (ttl_override : option Z) (self : CacheManager) :
  reachable self ->
  exists ttl,
    from_option Some (_ttl_config self !! t) ttl_override = Some ttl /\
    (fits_float ttl -> fst (set now key payload t ttl_override self) = Ok tt) /\
    (~ fits_float ttl ->
     set now key payload t ttl_override self = (Raise OverflowError, self)).
Proof.
  intros [cfg Hreach].
  assert (exists ttl, from_option Some (_ttl_config self !! t) ttl_override = Some ttl)
    as [ttl Httl].
  { destruct ttl_override as [ttl|]; [by exists ttl |]. cbn.
    rewrite (reachable_from_ttl_config cfg self t Hreach). by eexists. }
  exists ttl. split; [done |]. split.
  - intros Hfit. by rewrite (set_stores _ _ _ _ _ _ ttl Httl Hfit).
  - intros Hfit. by apply (set_overflows _ _ _ _ _ _ ttl).
Qed.

Lemma set_raises_only_on_overflow_witness :
  set 0 "k" VNone PLAYER_DATA (Some (- 2 ^ 1024)) (__init__ None) =
    (Raise OverflowError, __init__ None).
Proof.
  destruct (set_raises_only_on_overflow 0 "k" VNone PLAYER_DATA (Some (- 2 ^ 1024))
              (__init__ None)) as (ttl & Httl & _ & Hraise).
  - exists None, []. reflexivity.
  - injection Httl as <-. apply Hraise. by vm_compute.
Defined.

(** X16. Storing under a key that is not in the store and invalidating it
    again restores the store: [invalidate] returns true and the manager is the
    one before the [set], with one more invalidation. *)
Theorem set_then_invalidate_restores
    (now : Q) (key : string) (payload : value) (t : CacheDataType)
    (ttl_override : option Z) (self self1 : CacheManager) :
  _cache self !! key = None ->
  set now key payload t ttl_override self = (Ok tt, self1) ->
  invalidate key self1 =
    (Ok true,
     with_stats self
       {| hits := hits (_stats self);
          misses := misses (_stats self);
          evictions := evictions (_stats self);
          invalidations := invalidations (_stats self) + 1 |}).
Proof.
  intros Hk Hset.
  destruct (set_cases now key payload t ttl_override self)
    as [[e Hraise]|[ttl [_ [_ Hstored]]]]; [congruence |].
  rewrite Hstored in Hset. injection Hset as <-.
  rewrite invalidate_present by (cbn; rewrite lookup_insert_eq; by eexists).
  cbn. by rewrite delete_insert_id.
Qed.

Lemma set_then_invalidate_restores_witness :
  fst (invalidate "a" (snd (set 0 "a" (VInt 1) ROSTER_DATA None (__init__ None)))) = Ok true /\
  _cache (snd (invalidate "a" (snd (set 0 "a" (VInt 1) ROSTER_DATA None (__init__ None)))))
    = _cache (__init__ None).
Proof.
  rewrite (set_then_invalidate_restores 0 "a" (VInt 1) ROSTER_DATA None (__init__ None)
             (snd (set 0 "a" (VInt 1) ROSTER_DATA None (__init__ None)))).
  - split; reflexivity.
  - reflexivity.
  - reflexivity.
Defined.

(** ** The hit rate *)

(** X17. On a manager made by the constructor, the [hit_rate_percent] that
    [get_stats] reports lies between 0 and 100: it is the int 0 before any
    request, and afterwards a float between 0 and 100, which is 100 when no
    request missed and 0 when none hit. *)
Theorem hit_rate_between_0_and_100 (self : CacheManager) :
  reachable self ->
  exists d,
    get_stats self = (Ok d, self) /\
    (hits (_stats self) + misses (_stats self) = 0 ->
     StatsDict.hit_rate_percent d = NInt 0) /\
    (hits (_stats self) + misses (_stats self) <> 0 ->
     exists r,
       StatsDict.hit_rate_percent d = NFloat r /\
       (0 <= r <= 100)%Q /\
       (misses (_stats self) = 0 -> (r == 100)%Q) /\
       (hits (_stats self) = 0 -> (r == 0)%Q)).
Proof.
  intros Hreach. pose proof (reachable_counters_nonneg self Hreach) as Hnonneg.
  rewrite get_stats_value by done. destruct Hnonneg as (Hh & Hm & _). cbn zeta.
  set (h := hits (_stats self)) in *. set (m := misses (_stats self)) in *.
  eexists. split; [reflexivity |]. cbn [StatsDict.hit_rate_percent].
  split.
  - intros Hzero. by destruct (Z.ltb_spec 0 (h + m)); [lia |].
  - intros Hnonzero. destruct (Z.ltb_spec 0 (h + m)) as [Hpos|]; [| lia].
    set (ratio := (inject_Z h / inject_Z (h + m))%Q).
    assert (0 <= ratio <= 1)%Q as Hratio by (apply part_ratio_bounds; lia).
    destruct (round_2_percent ratio Hratio) as (Hr & _ & Hrange & _).
    eexists. split; [exact Hr |]. split; [exact Hrange |]. split.
    + intros Hm0.
      assert (ratio == 1)%Q as Hone.
      { subst ratio. rewrite Hm0, Z.add_0_r.
        apply Qmult_inv_r. change 0%Q with (inject_Z 0). rewrite inject_Z_injective. lia. }
      pose proof (to_double_one ratio Hone) as Hquotient.
      assert (Py.to_double ratio * 100 == 100)%Q as Hproduct by lra.
      pose proof (to_double_hundred _ Hproduct) as Hpercent.
      rewrite (Qround_half_even_whole _ 10000)
        by (change (inject_Z 10000) with 10000%Q; lra).
      apply to_double_hundred. reflexivity.
    + intros Hh0.
      assert (ratio == 0)%Q as Hnone.
      { subst ratio. rewrite Hh0. change (inject_Z 0) with 0%Q. unfold Qdiv. lra. }
      rewrite (to_double_zero ratio Hnone).
      rewrite (to_double_zero (0 * 100)) by lra.
      rewrite (Qround_half_even_whole _ 0) by (change (inject_Z 0) with 0%Q; lra).
      rewrite (to_double_zero (inject_Z 0 / 100)) by reflexivity.
      reflexivity.
Qed.

Lemma hit_rate_between_0_and_100_witness :
  let self :=
    after_all [CallSet 0 "a" (VInt 1) ROSTER_DATA None; CallGet 1 "a" ROSTER_DATA]
      (__init__ None) in
  exists d r,
    get_stats self = (Ok d, self) /\
    StatsDict.hit_rate_percent d = NFloat r /\ (r == 100)%Q.
Proof.
  intros self.
  destruct (hit_rate_between_0_and_100 self) as (d & Hrun & _ & Hrate).
  - exists None. eexists. reflexivity.
  - destruct Hrate as (r & Hr & _ & Hall & _).
    + intros Hz. vm_compute in Hz. discriminate Hz.
    + exists d, r. split; [exact Hrun |]. split; [exact Hr |]. apply Hall. reflexivity.
Defined.

(** ** The cache report *)

Lemma count_entries_cons (p : CacheEntry -> bool) (entry : CacheEntry)
    (entries : list CacheEntry) :
  count_entries p (entry :: entries) = (if p entry then 1 else 0) + count_entries p entries.
Proof.
  unfold count_entries. rewrite filter_cons.
  destruct (p entry); case_decide; try done; cbn [length]; lia.
Qed.

Lemma count_entries_bounds (p : CacheEntry -> bool) (entries : list CacheEntry) :
  0 <= count_entries p entries <= Z.of_nat (length entries).
Proof.
  unfold count_entries. pose proof (length_filter (fun e => p e = true) entries). lia.
Qed.

Lemma expired_among_bounds (p : CacheEntry -> bool) (clock : nat -> Q)
    (entries : list CacheEntry) :
  forall i, 0 <= expired_among p clock i entries <= count_entries p entries.
Proof.
  induction entries as [|entry entries IH]; intros i.
  - done.
  - cbn [expired_among]. rewrite count_entries_cons. specialize (IH (S i)).
    destruct (p entry), (is_expired (clock i) entry); cbn; lia.
Qed.

(** With a clock that stands still during the scan, the expired entries are
    those that have expired at that reading. *)
Lemma expired_among_standing (p : CacheEntry -> bool) (clock : nat -> Q) (now : Q)
    (entries : list CacheEntry) :
  (forall i, clock i = now) ->
  forall i, expired_among p clock i entries =
            count_entries (fun entry => p entry && is_expired now entry) entries.
Proof.
  intros Hclock. induction entries as [|entry entries IH]; intros i.
  - done.
  - cbn [expired_among]. by rewrite count_entries_cons, Hclock, IH.
Qed.

Lemma tally_insert (by_type : gmap string TypeInfo.t) (name : string) (ti : TypeInfo.t) :
  tally (<[name := ti]> by_type) name = ti.
Proof. unfold tally. by rewrite lookup_insert_eq. Qed.

Lemma tally_insert_ne (by_type : gmap string TypeInfo.t) (name name' : string)
    (ti : TypeInfo.t) :
  name <> name' -> tally (<[name := ti]> by_type) name' = tally by_type name'.
Proof. intros Hne. unfold tally. by rewrite lookup_insert_ne. Qed.

Lemma tally_empty (name : string) :
  tally ∅ name = {| TypeInfo.count := 0; TypeInfo.expired := 0 |}.
Proof. unfold tally. by rewrite lookup_empty. Qed.

(** One iteration of the scan, in closed form. *)
Lemma get_cache_info_body_value (current_time now_entry : Q) (entry : CacheEntry)
    (info : CacheInfo.t) (ages : list Q) :
  let name := CacheDataType_value (data_type entry) in
  let seen := tally (CacheInfo.entries_by_type info) name in
  let gone := is_expired now_entry entry in
  get_cache_info_body current_time now_entry entry (info, ages) =
    Ok ({| CacheInfo.total_entries := CacheInfo.total_entries info;
           CacheInfo.expired_entries :=
             if gone then CacheInfo.expired_entries info + 1
             else CacheInfo.expired_entries info;
           CacheInfo.entries_by_type :=
             <[name := {| TypeInfo.count := TypeInfo.count seen + 1;
                          TypeInfo.expired :=
                            if gone then TypeInfo.expired seen + 1
                            else TypeInfo.expired seen |}]>
               (CacheInfo.entries_by_type info);
           CacheInfo.oldest_entry_age := CacheInfo.oldest_entry_age info;
           CacheInfo.newest_entry_age := CacheInfo.newest_entry_age info |},
        ages ++ [age_seconds current_time entry]).
Proof.
  intros name seen gone. unfold get_cache_info_body. fold name.
  set (bt := CacheInfo.entries_by_type info) in *.
  unfold Py.contains, Py.getitem, Py.setitem.
  subst seen. unfold tally. fold gone.
  destruct (bt !! name) as [ti|] eqn:Hname.
  - rewrite bool_decide_eq_true_2 by (by eexists). cbn [negb]. rewrite Hname.
    cbn [result_bind default]. destruct gone.
    + rewrite lookup_insert_eq. cbn [result_bind]. by rewrite insert_insert_eq.
    + done.
  - rewrite bool_decide_eq_false_2 by (by intros [? ?]). cbn [negb].
    rewrite lookup_insert_eq. cbn [result_bind default]. destruct gone.
    + rewrite lookup_insert_eq. cbn [result_bind]. by rewrite !insert_insert_eq.
    + by rewrite insert_insert_eq.
Qed.

(** The whole scan, from iteration [i] on. *)
Lemma get_cache_info_loop_value (current_time : Q) (clock : nat -> Q)
    (entries : list CacheEntry) :
  forall (i : nat) (info : CacheInfo.t) (ages : list Q),
  exists info',
    get_cache_info_loop current_time clock i entries (info, ages) =
      Ok (info', ages ++ (age_seconds current_time <$> entries)) /\
    CacheInfo.total_entries info' = CacheInfo.total_entries info /\
    CacheInfo.oldest_entry_age info' = CacheInfo.oldest_entry_age info /\
    CacheInfo.newest_entry_age info' = CacheInfo.newest_entry_age info /\
    CacheInfo.expired_entries info' =
      CacheInfo.expired_entries info + expired_among (fun _ => true) clock i entries /\
    forall name,
      TypeInfo.count (tally (CacheInfo.entries_by_type info') name) =
        TypeInfo.count (tally (CacheInfo.entries_by_type info) name)
        + count_entries (named name) entries /\
      TypeInfo.expired (tally (CacheInfo.entries_by_type info') name) =
        TypeInfo.expired (tally (CacheInfo.entries_by_type info) name)
        + expired_among (named name) clock i entries /\
      (is_Some (CacheInfo.entries_by_type info' !! name) <->
       is_Some (CacheInfo.entries_by_type info !! name) \/
       0 < count_entries (named name) entries).
Proof.
  induction entries as [|entry entries IH]; intros i info ages.
  - exists info. cbn. rewrite app_nil_r.
    split; [done |]. split; [done |]. split; [done |]. split; [done |]. split; [lia |].
    intros name. split; [unfold count_entries; cbn; lia |]. split; [lia |].
    unfold count_entries. cbn. split; [by left | intros [?|?]; [done | lia]].
  - cbn [get_cache_info_loop]. rewrite get_cache_info_body_value. cbn zeta.
    cbn [result_bind].
    match goal with
    | |- context [get_cache_info_loop _ _ _ _ (?info1, _)] =>
        destruct (IH (S i) info1 (ages ++ [age_seconds current_time entry]))
          as (info' & Hrun & Htotal & Hold & Hnew & Hexp & Htypes)
    end.
    exists info'. rewrite Hrun. cbn in Htotal, Hold, Hnew, Hexp.
    split; [by rewrite <- app_assoc |]. split; [done |]. split; [done |]. split; [done |].
    split.
    { rewrite Hexp. cbn [expired_among andb]. destruct (is_expired (clock i) entry); lia. }
    intros name. destruct (Htypes name) as (Hcount & Hgone & Hsome).
    cbn [CacheInfo.entries_by_type] in Hcount, Hgone, Hsome.
    rewrite count_entries_cons. cbn [expired_among]. unfold named at 1 3 5.
    destruct (decide (CacheDataType_value (data_type entry) = name)) as [<-|Hne].
    + rewrite tally_insert in Hcount, Hgone. cbn in Hcount, Hgone.
      rewrite lookup_insert_eq in Hsome.
      rewrite bool_decide_eq_true_2 by done. cbn [andb].
      split; [lia |]. split.
      * rewrite Hgone. destruct (is_expired (clock i) entry); lia.
      * split; [intros _; right | intros _; apply Hsome; left; by eexists].
        pose proof (count_entries_bounds
                      (named (CacheDataType_value (data_type entry))) entries). lia.
    + rewrite tally_insert_ne in Hcount, Hgone by done.
      rewrite lookup_insert_ne in Hsome by done.
      rewrite bool_decide_eq_false_2 by done. cbn [andb].
      split; [lia |]. split; [lia |].
      rewrite Hsome. split; (intros [?|?]; [by left | right; lia]).
Qed.

Lemma foldl_Qmax_upper (l : list Q) :
  forall x, (x <= foldl Py.Qmax x l)%Q /\ forall y, y ∈ l -> (y <= foldl Py.Qmax x l)%Q.
Proof.
  induction l as [|z l IH]; intros x; cbn [foldl].
  - split; [lra | by intros y ?%elem_of_nil].
  - destruct (IH (Py.Qmax x z)) as [Hacc Hrest].
    assert (x <= Py.Qmax x z /\ z <= Py.Qmax x z)%Q as [Hx Hz].
    { unfold Py.Qmax. destruct (Qle_bool x z) eqn:Hle.
      - apply Qle_bool_iff in Hle. split; lra.
      - apply not_true_iff_false in Hle. rewrite Qle_bool_iff in Hle.
        apply Qnot_le_lt in Hle. split; lra. }
    split; [lra |]. intros y [->|Hy]%elem_of_cons; [lra | by apply Hrest].
Qed.

Lemma foldl_Qmin_lower (l : list Q) :
  forall x, (foldl Py.Qmin x l <= x)%Q /\ forall y, y ∈ l -> (foldl Py.Qmin x l <= y)%Q.
Proof.
  induction l as [|z l IH]; intros x; cbn [foldl].
  - split; [lra | by intros y ?%elem_of_nil].
  - destruct (IH (Py.Qmin x z)) as [Hacc Hrest].
    assert (Py.Qmin x z <= x /\ Py.Qmin x z <= z)%Q as [Hx Hz].
    { unfold Py.Qmin. destruct (Qle_bool x z) eqn:Hle.
      - apply Qle_bool_iff in Hle. split; lra.
      - apply not_true_iff_false in Hle. rewrite Qle_bool_iff in Hle.
        apply Qnot_le_lt in Hle. split; lra. }
    split; [lra |]. intros y [->|Hy]%elem_of_cons; [lra | by apply Hrest].
Qed.

Lemma foldl_Qmax_elem (l : list Q) : forall x, foldl Py.Qmax x l ∈ x :: l.
Proof.
  induction l as [|z l IH]; intros x; cbn [foldl]; [by left |].
  specialize (IH (Py.Qmax x z)). apply elem_of_cons in IH as [->|Hin].
  - unfold Py.Qmax. destruct (Qle_bool x z); [right; left | left].
  - right. by right.
Qed.

Lemma foldl_Qmin_elem (l : list Q) : forall x, foldl Py.Qmin x l ∈ x :: l.
Proof.
  induction l as [|z l IH]; intros x; cbn [foldl]; [by left |].
  specialize (IH (Py.Qmin x z)). apply elem_of_cons in IH as [->|Hin].
  - unfold Py.Qmin. destruct (Qle_bool x z); [left | right; left].
  - right. by right.
Qed.

Lemma values_elem (c : gmap string CacheEntry) (e : CacheEntry) :
  e ∈ Py.values c <-> exists k, c !! k = Some e.
Proof.
  unfold Py.values. rewrite list_elem_of_fmap. split.
  - intros [[k e'] [-> Hin]]. exists k. by apply elem_of_map_to_list in Hin.
  - intros [k Hk]. exists (k, e). split; [done |]. by apply elem_of_map_to_list.
Qed.

Lemma values_length (c : gmap string CacheEntry) : length (Py.values c) = size c.
Proof. unfold Py.values. by rewrite length_fmap, length_map_to_list. Qed.

Lemma count_entries_ext (p p' : CacheEntry -> bool) (entries : list CacheEntry) :
  (forall e, p e = p' e) -> count_entries p entries = count_entries p' entries.
Proof.
  intros Hext. induction entries as [|entry entries IH]; [done |].
  by rewrite !count_entries_cons, Hext, IH.
Qed.

Lemma expired_among_ext (p p' : CacheEntry -> bool) (clock : nat -> Q)
    (entries : list CacheEntry) :
  (forall e, p e = p' e) ->
  forall i, expired_among p clock i entries = expired_among p' clock i entries.
Proof.
  intros Hext. induction entries as [|entry entries IH]; intros i; [done |].
  cbn [expired_among]. by rewrite Hext, IH.
Qed.

Lemma CacheDataType_value_inj (t t' : CacheDataType) :
  CacheDataType_value t = CacheDataType_value t' -> t = t'.
Proof. by destruct t, t'. Qed.

Lemma named_value (t : CacheDataType) (e : CacheEntry) :
  named (CacheDataType_value t) e = has_data_type t e.
Proof.
  unfold named, has_data_type. apply bool_decide_ext. split.
  - apply CacheDataType_value_inj.
  - by intros ->.
Qed.

(** [get_cache_info], in closed form. *)
Lemma get_cache_info_value (now : Q) (clock : nat -> Q) (self : CacheManager) :
  let entries := Py.values (_cache self) in
  exists info,
    get_cache_info now clock self = (Ok info, self) /\
    CacheInfo.total_entries info = Z.of_nat (size (_cache self)) /\
    CacheInfo.expired_entries info = expired_among (fun _ => true) clock 0 entries /\
    (forall name,
       TypeInfo.count (tally (CacheInfo.entries_by_type info) name) =
         count_entries (named name) entries /\
       TypeInfo.expired (tally (CacheInfo.entries_by_type info) name) =
         expired_among (named name) clock 0 entries /\
       (is_Some (CacheInfo.entries_by_type info !! name) <->
        0 < count_entries (named name) entries)) /\
    match age_seconds now <$> entries with
    | [] =>
        CacheInfo.oldest_entry_age info = NInt 0 /\
        CacheInfo.newest_entry_age info = NInt 0
    | age :: ages =>
        CacheInfo.oldest_entry_age info = NFloat (foldl Py.Qmax age ages) /\
        CacheInfo.newest_entry_age info = NFloat (foldl Py.Qmin age ages)
    end.
Proof.
  intros entries. unfold get_cache_info, bind, read_cache, Py.truthy.
  case_bool_decide as Hempty; cbn [negb].
  - assert (entries = []) as Hnil
      by (subst entries; unfold Py.values; by rewrite Hempty, map_to_list_empty).
    rewrite Hnil. eexists. split; [reflexivity |]. cbn.
    split; [by rewrite Hempty, map_size_empty |]. split; [done |].
    split; [| done].
    intros name. unfold tally, count_entries. rewrite lookup_empty. cbn.
    split; [done |]. split; [done |]. split; [by intros [? ?] | lia].
  - unfold lift. fold entries.
    match goal with
    | |- context [get_cache_info_loop _ _ _ _ (?info0, _)] =>
        destruct (get_cache_info_loop_value now clock entries 0 info0 [])
          as (info' & Hrun & Htotal & Hold & Hnew & Hexp & Htypes)
    end.
    rewrite Hrun. cbn [app]. cbn in Htotal, Hold, Hnew, Hexp.
    assert (forall name,
      TypeInfo.count (tally (CacheInfo.entries_by_type info') name) =
        count_entries (named name) entries /\
      TypeInfo.expired (tally (CacheInfo.entries_by_type info') name) =
        expired_among (named name) clock 0 entries /\
      (is_Some (CacheInfo.entries_by_type info' !! name) <->
       0 < count_entries (named name) entries)) as Htypes'.
    { intros name. destruct (Htypes name) as (Hc & Hx & Hs).
      cbn [CacheInfo.entries_by_type] in Hc, Hx, Hs.
      rewrite tally_empty in Hc, Hx. rewrite lookup_empty in Hs.
      cbn [TypeInfo.count TypeInfo.expired] in Hc, Hx.
      split; [lia |]. split; [lia |]. rewrite Hs.
      split; [intros [[? ?]|?]; done | by right]. }
    destruct (age_seconds now <$> entries) as [|age ages] eqn:Hages.
    + eexists. split; [reflexivity |]. cbn. unfold Py.len.
      split; [done |]. split; [lia |]. split; done.
    + cbn. eexists. split; [reflexivity |]. cbn. unfold Py.len.
      split; [done |]. split; [lia |]. split; done.
Qed.

(** X18. [get_cache_info] leaves the manager as it is and reports as
    [total_entries] the number of entries in the store and as
    [expired_entries] a number between 0 and [total_entries]; when the clock
    stands still during the scan, it is the number of entries that have
    expired at that reading, whether or not a [get] or a sweep has removed
    them yet. *)
Theorem get_cache_info_counts (now : Q) (clock : nat -> Q) (self : CacheManager) :
  exists info,
    get_cache_info now clock self = (Ok info, self) /\
    CacheInfo.total_entries info = Z.of_nat (size (_cache self)) /\
    0 <= CacheInfo.expired_entries info <= CacheInfo.total_entries info /\
    forall reading,
      (forall i, clock i = reading) ->
      CacheInfo.expired_entries info =
        count_entries (is_expired reading) (Py.values (_cache self)).
Proof.
  destruct (get_cache_info_value now clock self) as (info & Hrun & Htotal & Hexp & _).
  exists info. split; [done |]. split; [done |]. split.
  - rewrite Hexp, Htotal.
    pose proof (expired_among_bounds (fun _ => true) clock (Py.values (_cache self)) 0).
    pose proof (count_entries_bounds (fun _ => true) (Py.values (_cache self))).
    rewrite values_length in *. lia.
  - intros reading Hclock. rewrite Hexp.
    by rewrite (expired_among_standing _ clock reading _ Hclock).
Qed.

Lemma get_cache_info_counts_witness :
  let self :=
    after_all [CallSet 0 "old" (VInt 1) ROSTER_DATA (Some 10);
               CallSet 0 "new" (VInt 2) ROSTER_DATA (Some 100)] (__init__ None) in
  exists info,
    get_cache_info 50 (fun _ => 50%Q) self = (Ok info, self) /\
    CacheInfo.total_entries info = 2 /\
    CacheInfo.expired_entries info = 1.
Proof.
  intros self.
  destruct (get_cache_info_counts 50 (fun _ => 50%Q) self) as (info & Hrun & Htotal & _ & Hexp).
  exists info. split; [exact Hrun |]. split; [exact Htotal |].
  rewrite (Hexp 50%Q); reflexivity.
Defined.

(** X19. In the report of [get_cache_info], [entries_by_type] has a key for a
    category exactly when the store holds an entry of that category; its
    [count] is the number of those entries and its [expired] lies between 0
    and [count] (with a clock that stands still: the number of those entries
    that have expired at that reading). *)
Theorem get_cache_info_by_type
    (now : Q) (clock : nat -> Q) (self : CacheManager) (t : CacheDataType) :
  let entries := Py.values (_cache self) in
  let n := count_entries (has_data_type t) entries in
  exists info,
    get_cache_info now clock self = (Ok info, self) /\
    (n = 0 -> CacheInfo.entries_by_type info !! CacheDataType_value t = None) /\
    (n <> 0 ->
     exists gone,
       CacheInfo.entries_by_type info !! CacheDataType_value t =
         Some {| TypeInfo.count := n; TypeInfo.expired := gone |} /\
       0 <= gone <= n /\
       forall reading,
         (forall i, clock i = reading) ->
         gone = count_entries
                  (fun entry => has_data_type t entry && is_expired reading entry) entries).
Proof.
  intros entries n.
  destruct (get_cache_info_value now clock self) as (info & Hrun & _ & _ & Htypes & _).
  destruct (Htypes (CacheDataType_value t)) as (Hcount & Hgone & Hsome).
  fold entries in Hcount, Hgone, Hsome.
  rewrite (count_entries_ext _ _ entries (named_value t)) in Hcount, Hsome.
  rewrite (expired_among_ext _ _ clock entries (named_value t)) in Hgone.
  fold n in Hcount, Hsome.
  exists info. split; [done |]. split.
  - intros Hzero. destruct (CacheInfo.entries_by_type info !! _) eqn:Hlook; [| done].
    assert (0 < n) by (apply Hsome; by eexists). lia.
  - intros Hnonzero.
    pose proof (count_entries_bounds (has_data_type t) entries) as Hbounds. fold n in Hbounds.
    destruct (proj2 Hsome) as [[c x] Hlook]; [lia |].
    unfold tally in Hcount, Hgone. rewrite Hlook in Hcount, Hgone. cbn in Hcount, Hgone.
    exists x. rewrite Hlook, Hcount. split; [done |].
    pose proof (expired_among_bounds (has_data_type t) clock entries 0) as Hx.
    fold n in Hx. split; [lia |].
    intros reading Hclock. rewrite Hgone.
    by rewrite (expired_among_standing _ clock reading _ Hclock).
Qed.

Lemma get_cache_info_by_type_witness :
  let self :=
    after_all [CallSet 0 "a" (VInt 1) ROSTER_DATA (Some 10);
               CallSet 0 "b" (VInt 2) ROSTER_DATA (Some 100)] (__init__ None) in
  exists info,
    get_cache_info 50 (fun _ => 50%Q) self = (Ok info, self) /\
    CacheInfo.entries_by_type info !! "player_data" = None /\
    CacheInfo.entries_by_type info !! "roster_data" =
      Some {| TypeInfo.count := 2; TypeInfo.expired := 1 |}.
Proof.
  intros self.
  destruct (get_cache_info_by_type 50 (fun _ => 50%Q) self PLAYER_DATA)
    as (info & Hrun & Hnone & _).
  destruct (get_cache_info_by_type 50 (fun _ => 50%Q) self ROSTER_DATA)
    as (info' & Hrun' & _ & Hsome).
  rewrite Hrun in Hrun'. injection Hrun' as <-.
  exists info. split; [exact Hrun |]. split.
  - apply Hnone. reflexivity.
  - destruct Hsome as (gone & Hlook & _ & Hgone); [discriminate |].
    cbn [CacheDataType_value] in Hlook.
    rewrite Hlook, (Hgone 50%Q); reflexivity.
Defined.

(** X20. In the report of [get_cache_info] on an empty store both ages are the
    int 0 and there are no entries, no expired entries and no per-type
    records; on a store with entries, [oldest_entry_age] and
    [newest_entry_age] are the largest and the smallest of the entries' ages
    (clock reading minus creation time): each is the age of some entry, and
    the age of every entry lies between them. *)
Theorem get_cache_info_ages (now : Q) (clock : nat -> Q) (self : CacheManager) :
  exists info,
    get_cache_info now clock self = (Ok info, self) /\
    (_cache self = ∅ ->
     CacheInfo.oldest_entry_age info = NInt 0 /\
     CacheInfo.newest_entry_age info = NInt 0 /\
     CacheInfo.total_entries info = 0 /\
     CacheInfo.expired_entries info = 0 /\
     CacheInfo.entries_by_type info = ∅) /\
    (_cache self <> ∅ ->
     exists oldest newest,
       CacheInfo.oldest_entry_age info = NFloat oldest /\
       CacheInfo.newest_entry_age info = NFloat newest /\
       (forall k e, _cache self !! k = Some e ->
                    (newest <= now - created_at e <= oldest)%Q) /\
       (exists k e, _cache self !! k = Some e /\ oldest = (now - created_at e)%Q) /\
       (exists k e, _cache self !! k = Some e /\ newest = (now - created_at e)%Q)).
Proof.
  destruct (get_cache_info_value now clock self)
    as (info & Hrun & Htotal & Hexp & Htypes & Hages).
  exists info. split; [done |]. split.
  - intros Hempty.
    assert (Py.values (_cache self) = []) as Hnil
      by (unfold Py.values; by rewrite Hempty, map_to_list_empty).
    rewrite Hnil in *. cbn in Hages, Hexp. destruct Hages as [Hold Hnew].
    split; [done |]. split; [done |].
    split; [by rewrite Htotal, Hempty, map_size_empty |]. split; [done |].
    apply map_eq. intros name. rewrite lookup_empty.
    destruct (Htypes name) as (_ & _ & Hsome).
    destruct (CacheInfo.entries_by_type info !! name) eqn:Hlook; [| done].
    assert (0 < count_entries (named name) []) as Hpos by (apply Hsome; by eexists).
    unfold count_entries in Hpos. cbn in Hpos. lia.
  - intros Hnonempty.
    destruct (age_seconds now <$> Py.values (_cache self)) as [|age ages] eqn:Hlist.
    { apply fmap_nil_inv in Hlist. unfold Py.values in Hlist.
      apply fmap_nil_inv in Hlist. by apply map_to_list_empty_iff in Hlist. }
    destruct Hages as [Hold Hnew].
    exists (foldl Py.Qmax age ages), (foldl Py.Qmin age ages).
    split; [done |]. split; [done |].
    assert (forall a, a ∈ age :: ages <->
                      exists k e, _cache self !! k = Some e /\ a = (now - created_at e)%Q)
      as Hage.
    { intros a. rewrite <- Hlist, list_elem_of_fmap. split.
      - intros [e [-> [k Hk]%values_elem]]. by exists k, e.
      - intros (k & e & Hk & ->). exists e. split; [done |]. apply values_elem. by exists k. }
    split; [| split].
    + intros k e Hk.
      assert ((now - created_at e)%Q ∈ age :: ages) as Hin by (apply Hage; by exists k, e).
      destruct (foldl_Qmax_upper ages age) as [Hmax0 Hmax].
      destruct (foldl_Qmin_lower ages age) as [Hmin0 Hmin].
      apply elem_of_cons in Hin as [->|Hin].
      * split; [exact Hmin0 | exact Hmax0].
      * split; [by apply Hmin | by apply Hmax].
    + apply Hage, foldl_Qmax_elem.
    + apply Hage, foldl_Qmin_elem.
Qed.

Lemma get_cache_info_ages_witness :
  let self :=
    after_all [CallSet 0 "a" (VInt 1) ROSTER_DATA None;
               CallSet 30 "b" (VInt 2) ROSTER_DATA None] (__init__ None) in
  exists info oldest newest,
    get_cache_info 50 (fun _ => 50%Q) self = (Ok info, self) /\
    CacheInfo.oldest_entry_age info = NFloat oldest /\
    CacheInfo.newest_entry_age info = NFloat newest /\
    (newest <= 50 - 30 <= oldest)%Q.
Proof.
  intros self.
  destruct (get_cache_info_ages 50 (fun _ => 50%Q) self) as (info & Hrun & _ & Hfull).
  destruct Hfull as (oldest & newest & Hold & Hnew & Hall & _).
  - intros Hempty. apply (f_equal (fun c => c !! "a")) in Hempty. discriminate Hempty.
  - exists info, oldest, newest. split; [exact Hrun |]. split; [exact Hold |].
    split; [exact Hnew |].
    apply (Hall "b" (entry_of 30 (VInt 2) ROSTER_DATA 900)). reflexivity.
Defined.

(** ** The module-level manager *)

Lemma get_cache_manager_valid (g : Globals) :
  globals_wf g ->
  let '(ref, g') := get_cache_manager g in
  globals_wf g' /\ _cache_manager g' = Some ref /\ is_Some (objects g' !! ref) /\
  (_cache_manager g = None -> objects g' !! ref = Some (__init__ None)) /\
  forall ref', (ref' < length (objects g))%nat -> objects g' !! ref' = objects g !! ref'.
Proof.
  intros Hwf. unfold get_cache_manager.
  destruct (_cache_manager g) as [ref|] eqn:Hglobal.
  - split; [done |]. split; [done |].
    split; [apply lookup_lt_is_Some; by apply Hwf |]. split; done.
  - cbn. split.
    + intros ref [= <-]. cbn. rewrite length_app. cbn. lia.
    + split; [done |]. rewrite list_lookup_middle by done.
      split; [by eexists |]. split; [done |].
      intros ref' Hlt. by rewrite lookup_app_l.
Qed.

(** X21. [get_cache_manager] hands out one manager: the first call constructs
    a manager with the default configuration, and after any method call
    through the reference it returned, a further [get_cache_manager] returns
    the same reference, to the manager as that call left it, and constructs
    nothing. *)
Theorem get_cache_manager_is_shared {A} (method : M A) (g : Globals) :
  globals_wf g ->
  let '(ref, g1) := get_cache_manager g in
  exists self,
    objects g1 !! ref = Some self /\
    (_cache_manager g = None -> self = __init__ None) /\
    exists g2,
      call_on ref method g1 = Some (fst (method self), g2) /\
      get_cache_manager g2 = (ref, g2) /\
      objects g2 !! ref = Some (snd (method self)) /\
      length (objects g2) = length (objects g1).
Proof.
  intros Hwf. pose proof (get_cache_manager_valid g Hwf) as Hvalid.
  destruct (get_cache_manager g) as [ref g1].
  destruct Hvalid as (Hwf1 & Hglobal & [self Hself] & Hnew & _).
  exists self. split; [done |].
  split; [intros Hnone; specialize (Hnew Hnone); congruence |].
  unfold call_on. rewrite Hself. destruct (method self) as [r self'].
  eexists. split; [reflexivity |]. cbn.
  split; [| split].
  - unfold get_cache_manager. cbn. by rewrite Hglobal.
  - apply list_lookup_insert_eq. by apply lookup_lt_Some in Hself.
  - apply length_insert.
Qed.

Lemma get_cache_manager_is_shared_witness :
  let '(ref, g1) := get_cache_manager module_loaded in
  exists g2,
    call_on ref (set 0 "a" (VInt 1) ROSTER_DATA None) g1 = Some (Ok tt, g2) /\
    get_cache_manager g2 = (ref, g2) /\
    (fst <$> call_on ref (get 1 "a" ROSTER_DATA) g2) = Some (Ok (VInt 1)).
Proof.
  pose proof (get_cache_manager_is_shared (set 0 "a" (VInt 1) ROSTER_DATA None) module_loaded)
    as Hshared.
  destruct (get_cache_manager module_loaded) as [ref g1] eqn:Hfirst.
  destruct Hshared as (self & Hself & Hnew & g2 & Hcall & Hagain & Hobj & _).
  - intros ref' Href. discriminate Href.
  - rewrite (Hnew eq_refl) in Hcall, Hobj.
    exists g2. split; [exact Hcall |]. split; [exact Hagain |].
    unfold call_on. rewrite Hobj. reflexivity.
Defined.

(** X22. [initialize_cache] replaces the module-level manager by a new one:
    it returns a reference, different from every earlier one, to a manager
    with an empty store, zero counters and the given configuration, which
    [get_cache_manager] returns from then on; a manager obtained earlier is
    unchanged, and what is stored through its reference afterwards does not
    reach the new manager. *)
Theorem initialize_cache_replaces {A}
    (ttl_config : option (gmap CacheDataType Z)) (method : M A) (g : Globals)
    (old : nat) (self : CacheManager) :
  objects g !! old = Some self ->
  let '(ref, g1) := initialize_cache ttl_config g in
  ref <> old /\
  objects g1 !! ref = Some (__init__ ttl_config) /\
  objects g1 !! old = Some self /\
  get_cache_manager g1 = (ref, g1) /\
  exists g2,
    call_on old method g1 = Some (fst (method self), g2) /\
    objects g2 !! old = Some (snd (method self)) /\
    objects g2 !! ref = Some (__init__ ttl_config) /\
    get_cache_manager g2 = (ref, g2).
Proof.
  intros Hold. unfold initialize_cache.
  pose proof (lookup_lt_Some _ _ _ Hold) as Hlt.
  assert (length (objects g) <> old) as Hne by lia.
  split; [done |].
  cbn [objects _cache_manager].
  split; [by rewrite list_lookup_middle |].
  split; [by rewrite lookup_app_l |].
  split; [done |].
  unfold call_on. cbn [objects _cache_manager]. rewrite lookup_app_l, Hold by done.
  destruct (method self) as [r self']. eexists. split; [reflexivity |]. cbn.
  split; [| split; [| done]].
  - apply list_lookup_insert_eq. rewrite length_app. lia.
  - rewrite list_lookup_insert_ne by lia. by rewrite list_lookup_middle.
Qed.

Lemma initialize_cache_replaces_witness :
  let '(old, g0) := get_cache_manager module_loaded in
  let '(ref, g1) := initialize_cache (Some {[ MATCHUP_DATA := 300 ]}) g0 in
  exists g2,
    call_on old (set 0 "a" (VInt 1) ROSTER_DATA None) g1 = Some (Ok tt, g2) /\
    (fst <$> call_on ref (get 1 "a" ROSTER_DATA) g2) = Some (Ok VNone) /\
    (fst <$> call_on old (get 1 "a" ROSTER_DATA) g2) = Some (Ok (VInt 1)).
Proof.
  cbn [get_cache_manager module_loaded _cache_manager objects length app].
  pose proof (initialize_cache_replaces (Some {[ MATCHUP_DATA := 300 ]})
                (set 0 "a" (VInt 1) ROSTER_DATA None)
                {| objects := [__init__ None]; _cache_manager := Some 0%nat |}
                0%nat (__init__ None) eq_refl) as Hreplaced.
  destruct (initialize_cache _ _) as [ref g1].
  destruct Hreplaced as (_ & _ & _ & _ & g2 & Hcall & Hold & Hnew & _).
  exists g2. split; [exact Hcall |].
  unfold call_on. rewrite Hold, Hnew. split; reflexivity.
Defined.
